(** * Conspiracy Board Agent: a shallow embedding of the orchestration core

    The development follows the Python sources module by module:
    [Graph] is [agent/graph.py], [Search] is [agent/search.py],
    [Extractor] is [agent/extractor.py], [Senso] is [agent/senso.py] and
    [Agent] is [agent/agent.py].

    Conventions.  A Python [str] is a [string]; one [ascii] stands for one
    character, so [String.length] is Python's [len] and [take n s] is the
    slice [s[:n]].  A Python [int] is a [Z].  A call that may raise returns
    a [result]; a method of an object with mutable attributes is a function
    from the object to a [result] paired with the object afterwards, so the
    attributes written before an exception are kept. *)

From Stdlib Require Import List String Ascii ZArith Lia Bool Arith.
From Stdlib Require Import Permutation Sorted.
From Stdlib Require Import DecimalString.
Import ListNotations.
Local Open Scope string_scope.

(** ** Python values shared by the modules *)

Inductive exn : Type :=
| ServiceUnavailable            (* neo4j.exceptions.ServiceUnavailable *)
| KeyError (key : string)       (* d[key] on a dict without [key] *)
| TransportError                (* an HTTP / SDK call failed *)
| JSONDecodeError               (* json.loads on text that is not JSON *)
| AttributeError                (* e.g. [.strip()] on None, [.get] on a list *)
| TypeError.

Inductive result (A : Type) : Type :=
| Ok (a : A)
| Raise (e : exn).
Arguments Ok {A} a.
Arguments Raise {A} e.

(** [s[:n]] *)
Fixpoint take (n : nat) (s : string) : string :=
  match n, s with
  | S n', String c s' => String c (take n' s')
  | _, _ => EmptyString
  end.

(** [bool(s)] for a str: a string is truthy when it is not empty. *)
Definition truthy (s : string) : bool :=
  match s with EmptyString => false | String _ _ => true end.

(** [sep.join(parts)] *)
Fixpoint join (sep : string) (parts : list string) : string :=
  match parts with
  | [] => EmptyString
  | [p] => p
  | p :: rest => p ++ sep ++ join sep rest
  end.

(** [try: body  except Exception: handler] *)
Definition try_except {A} (body : result A) (handler : exn -> A) : A :=
  match body with Ok a => a | Raise e => handler e end.

Definition bind {A B} (r : result A) (k : A -> result B) : result B :=
  match r with Ok a => k a | Raise e => Raise e end.

Notation "x <- r ;; k" := (bind r (fun x => k))
  (at level 61, r at next level, right associativity).

(** ** agent/graph.py *)

Module Graph.

(** *** The Neo4j database, as far as the five Cypher statements see it

    A node is identified by its position in [nodes]: nodes are only ever
    appended (MERGE) or removed all together (DETACH DELETE), so a position
    is a stable identity.  Every node carries the label [Entity] and every
    relationship the type [CONNECTED_TO], the only ones the statements
    create. *)

Record Node : Type := mkNode {
  n_name  : string;
  n_topic : option string;     (* unset on a node created by add_connection *)
  n_round : option Z
}.

Record Rel : Type := mkRel {
  r_src : nat;                 (* position of the start node *)
  r_dst : nat;                 (* position of the end node *)
  r_relationship : string;
  r_suspicion : Z
}.

Record Db : Type := mkDb {
  nodes : list Node;
  rels  : list Rel
}.

Definition has_name (name : string) (n : Node) : bool := n_name n =? name.

(** The identities of the nodes matched by [(x:Entity {name: $name})]. *)
Fixpoint ids_from (i : nat) (name : string) (ns : list Node) : list nat :=
  match ns with
  | [] => []
  | n :: ns' =>
      if has_name name n then i :: ids_from (S i) name ns'
      else ids_from (S i) name ns'
  end.

Definition ids_of (name : string) (db : Db) : list nat :=
  ids_from 0 name (nodes db).

(** [MATCH (n) DETACH DELETE n] *)
Definition delete_all (db : Db) : Db := mkDb [] [].

(** [MERGE (e:Entity {name: $name})]: bind the nodes of that name, or create
    one (with no other property) when there is none. *)
Definition merge_node (name : string) (db : Db) : Db :=
  if existsb (has_name name) (nodes db) then db
  else mkDb (nodes db ++ [mkNode name None None]) (rels db).

(** [SET e.topic = $topic, e.round = $round] on every node bound to [e]. *)
Definition set_entity (name topic : string) (round : Z) (db : Db) : Db :=
  mkDb (map (fun n => if has_name name n
                      then mkNode (n_name n) (Some topic) (Some round)
                      else n) (nodes db))
       (rels db).

(** The statement of [add_entity]. *)
Definition upsert_entity (name topic : string) (round : Z) (db : Db) : Db :=
  set_entity name topic round (merge_node name db).

Definition joins (ab : nat * nat) (r : Rel) : bool :=
  (r_src r =? fst ab)%nat && (r_dst r =? snd ab)%nat.

(** [MERGE (a)-[r:CONNECTED_TO]->(b) SET r.relationship = $rel,
    r.suspicion = $suspicion] for one row [(a, b)]: the relationships from
    [a] to [b] are overwritten, or one is created with these values. *)
Definition merge_rel (rel : string) (suspicion : Z) (db : Db) (ab : nat * nat)
  : Db :=
  if existsb (joins ab) (rels db)
  then mkDb (nodes db)
            (map (fun r => if joins ab r
                           then mkRel (r_src r) (r_dst r) rel suspicion
                           else r) (rels db))
  else mkDb (nodes db) (rels db ++ [mkRel (fst ab) (snd ab) rel suspicion]).

(** The statement of [add_connection]: both end points are merged, then the
    relationship is merged and set for every row of bound pairs. *)
Definition upsert_connection (from_name to_name rel : string) (suspicion : Z)
  (db : Db) : Db :=
  let db' := merge_node to_name (merge_node from_name db) in
  fold_left (merge_rel rel suspicion)
            (list_prod (ids_of from_name db') (ids_of to_name db'))
            db'.

(** [properties(e)] *)
Record Entity : Type := mkEntity {
  e_name  : string;
  e_topic : option string;
  e_round : option Z
}.

Definition properties (n : Node) : Entity :=
  mkEntity (n_name n) (n_topic n) (n_round n).

(** The dict built by [get_connections] for one record. *)
Record Connection : Type := mkConnection {
  c_from : string;
  c_to : string;
  c_relationship : string;
  c_suspicion : Z
}.

(** The record returned for one relationship whose two end nodes exist. *)
Definition record_of (ns : list Node) (r : Rel) : list Connection :=
  match nth_error ns (r_src r), nth_error ns (r_dst r) with
  | Some a, Some b =>
      [mkConnection (n_name a) (n_name b) (r_relationship r) (r_suspicion r)]
  | _, _ => []
  end.

(** [MATCH (a:Entity)-[r:CONNECTED_TO]->(b:Entity) RETURN a.name, b.name,
    r.relationship, r.suspicion], in the order the relationships are
    stored. *)
Definition match_connections (db : Db) : list Connection :=
  flat_map (record_of (nodes db)) (rels db).

(** *** The driver and the store object *)

(** A driver is a handle on a database; while the server is not [online]
    every call made through the driver raises. *)
Record Driver : Type := mkDriver {
  database : Db;
  online : bool
}.

Record ConspiracyGraph : Type := mkGraph {
  available : bool;
  _driver : option Driver
}.

(** A method: its outcome and the object after the call. *)
Definition method (A : Type) : Type := ConspiracyGraph -> result A * ConspiracyGraph.

(** [with self._driver.session() as session: session.run(stmt)] where
    [stmt] reads [A] from and rewrites the database. *)
Definition session_run {A} (stmt : Db -> A * Db) (d : Driver)
  : result A * Driver :=
  if online d
  then let (a, db') := stmt (database d) in (Ok a, mkDriver db' (online d))
  else (Raise ServiceUnavailable, d).

Definition driver_close (d : Driver) : result unit :=
  if online d then Ok tt else Raise ServiceUnavailable.

(** [__init__]: [GraphDatabase] is [None] when the neo4j package is not
    installed; otherwise it holds what [GraphDatabase.driver(uri, auth)]
    does, and [verify_connectivity] raises when the server is not online.
    Both handlers leave [available = False] and [_driver = None]. *)
Definition __init__ (GraphDatabase : option (result Driver)) : ConspiracyGraph :=
  match GraphDatabase with
  | None => mkGraph false None
  | Some (Raise _) => mkGraph false None
  | Some (Ok d) =>
      if online d then mkGraph true (Some d) else mkGraph false None
  end.

Definition close : method unit := fun self =>
  match _driver self with
  | Some d =>
      match driver_close d with
      | Ok _ => (Ok tt, mkGraph (available self) None)
      | Raise e => (Raise e, self)
      end
  | None => (Ok tt, self)
  end.

Definition run_on {A} (self : ConspiracyGraph) (d : Driver)
  (stmt : Db -> A * Db) : result A * ConspiracyGraph :=
  let (r, d') := session_run stmt d in
  (r, mkGraph (available self) (Some d')).

(** Each of the six methods below starts with the guard
    [if not self.available or self._driver is None: return default]; past
    the guard the driver exists and the statement runs in a session. *)
Definition clear : method unit := fun self =>
  match negb (available self), _driver self with
  | false, Some d => run_on self d (fun db => (tt, delete_all db))
  | _, _ => (Ok tt, self)
  end.

Definition add_entity (name topic : string) (round_num : Z) : method unit :=
  fun self =>
  match negb (available self), _driver self with
  | false, Some d =>
      run_on self d (fun db => (tt, upsert_entity name topic round_num db))
  | _, _ => (Ok tt, self)
  end.

Definition add_connection (from_entity to_entity relationship : string)
  (suspicion : Z) : method unit := fun self =>
  match negb (available self), _driver self with
  | false, Some d =>
      run_on self d
        (fun db => (tt, upsert_connection from_entity to_entity relationship
                          suspicion db))
  | _, _ => (Ok tt, self)
  end.

Definition get_all_entities : method (list Entity) := fun self =>
  match negb (available self), _driver self with
  | false, Some d => run_on self d (fun db => (map properties (nodes db), db))
  | _, _ => (Ok [], self)
  end.

Definition get_connections : method (list Connection) := fun self =>
  match negb (available self), _driver self with
  | false, Some d => run_on self d (fun db => (match_connections db, db))
  | _, _ => (Ok [], self)
  end.

Definition get_entity_count : method Z := fun self =>
  match negb (available self), _driver self with
  | false, Some d =>
      run_on self d (fun db => (Z.of_nat (List.length (nodes db)), db))
  | _, _ => (Ok 0%Z, self)
  end.

(** *** The states a store object can be in *)

Inductive call : Type :=
| Clear
| AddEntity (name topic : string) (round_num : Z)
| AddConnection (from_entity to_entity relationship : string) (suspicion : Z)
| GetAllEntities
| GetConnections
| GetEntityCount
| Close.

Definition after (c : call) (self : ConspiracyGraph) : ConspiracyGraph :=
  match c with
  | Clear => snd (clear self)
  | AddEntity n t r => snd (add_entity n t r self)
  | AddConnection f t rel s => snd (add_connection f t rel s self)
  | GetAllEntities => snd (get_all_entities self)
  | GetConnections => snd (get_connections self)
  | GetEntityCount => snd (get_entity_count self)
  | Close => snd (close self)
  end.

(** The server may go down or come back between two calls. *)
Definition server (up : bool) (self : ConspiracyGraph) : ConspiracyGraph :=
  mkGraph (available self)
          (option_map (fun d => mkDriver (database d) up) (_driver self)).

Inductive reachable : ConspiracyGraph -> Prop :=
| reach_init : forall gd, reachable (__init__ gd)
| reach_call : forall self c, reachable self -> reachable (after c self)
| reach_server : forall self up, reachable self -> reachable (server up self).

(** The calls that write entities or connections. *)
Definition is_upsert (c : call) : bool :=
  match c with
  | AddEntity _ _ _ | AddConnection _ _ _ _ => true
  | _ => false
  end.

(** The store after a sequence of calls. *)
Definition after_all (calls : list call) (self : ConspiracyGraph)
  : ConspiracyGraph :=
  fold_left (fun s c => after c s) calls self.

Definition unavailable (self : ConspiracyGraph) : Prop :=
  available self = false \/ _driver self = None.

(** The store is connected and its server answers. *)
Definition serving (self : ConspiracyGraph) (db : Db) : Prop :=
  available self = true /\ _driver self = Some (mkDriver db true).

(** What MERGE maintains from an empty database on: one node per name and
    one relationship per ordered pair of nodes. *)
(** The two states a store is in during a run of the agent: built without
    a connection, or connected to a server that answers. *)
Definition settled (self : ConspiracyGraph) : Prop :=
  self = mkGraph false None
  \/ exists db, self = mkGraph true (Some (mkDriver db true)).

Definition pair_of (r : Rel) : nat * nat := (r_src r, r_dst r).

(** The store built without a connection. *)
Definition idle : ConspiracyGraph := mkGraph false None.

Record unique_keys (db : Db) : Prop := {
  names_unique : NoDup (map n_name (nodes db));
  pairs_unique : NoDup (map pair_of (rels db))
}.

(** The entity records of a given name that [get_all_entities] returns. *)
Definition entities_named (name : string) (self : ConspiracyGraph)
  : result (list Entity) :=
  r <- fst (get_all_entities self) ;;
  Ok (filter (fun e => e_name e =? name) r).

(** The connection records of a given ordered pair that [get_connections]
    returns. *)
Definition between (from_name to_name : string) (c : Connection) : bool :=
  (c_from c =? from_name) && (c_to c =? to_name).




End Graph.

(** ** agent/search.py *)

Module Search.

(** One item of [response["results"]]: a dict in which each key may be
    missing. *)
Record RawResult : Type := mkRaw {
  raw_title : option string;
  raw_url : option string;
  raw_content : option string
}.

(** The dict returned by the Tavily client. *)
Record Response : Type := mkResponse {
  results : option (list RawResult);
  images : option (list string)
}.

(** The dict built for one result. *)
Record SearchResult : Type := mkResult {
  title : string;
  url : string;
  content : string
}.

(** [d.get(key, default)] *)
Definition get {A} (field : option A) (default : A) : A :=
  match field with Some v => v | None => default end.

Definition _truncate (text : string) (max_len : nat) : string :=
  if negb (truthy text) then EmptyString
  else if (max_len <? String.length text)%nat then take max_len text else text.

(** The module-level [_client]: [None] when the Tavily client could not be
    built; otherwise [search(query, max_results)], which may raise and
    whose answer is [None] here when it is not a dict. *)
Definition Client : Type := option (string -> nat -> result (option Response)).

Definition search_topic (_client : Client) (topic : string) (max_results : nat)
  : list SearchResult * list string :=
  match _client with
  | None => ([], [])
  | Some search =>
      match search topic max_results with
      | Raise _ => ([], [])
      | Ok response =>
          let results := match response with
                         | Some r => get (results r) []
                         | None => [] end in
          let images := match response with
                        | Some r => get (images r) []
                        | None => [] end in
          (map (fun r => mkResult (get (raw_title r) EmptyString)
                                  (get (raw_url r) EmptyString)
                                  (_truncate (get (raw_content r) EmptyString) 500))
               results,
           firstn 3 images)
      end
  end.

Definition search_connections (_client : Client) (topic_a topic_b : string)
  : list SearchResult * list string :=
  let query := topic_a ++ " " ++ topic_b ++ " connection relationship" in
  search_topic _client query 3.

End Search.

(** ** Strings: whitespace, [strip] and the two code-fence substitutions *)

Definition nl : string := String (ascii_of_nat 10) EmptyString.
Definition dq : string := String (ascii_of_nat 34) EmptyString.
Definition quoted (s : string) : string := dq ++ s ++ dq.

(** [c.isspace()], which is also what [\s] matches in a str pattern. *)
Definition is_space (c : ascii) : bool :=
  let n := nat_of_ascii c in
  ((9 <=? n) && (n <=? 13) || (28 <=? n) && (n <=? 32)
   || (n =? 133) || (n =? 160))%nat.

Fixpoint lstrip (s : string) : string :=
  match s with
  | String c s' => if is_space c then lstrip s' else s
  | EmptyString => EmptyString
  end.

Fixpoint rstrip (s : string) : string :=
  match s with
  | String c s' =>
      match rstrip s' with
      | EmptyString => if is_space c then EmptyString else String c EmptyString
      | r => String c r
      end
  | EmptyString => EmptyString
  end.

Definition strip (s : string) : string := rstrip (lstrip s).

(** Every character of [s] is a blank. *)
Definition blank (s : string) : bool :=
  forallb is_space (list_ascii_of_string s).

(** A string that does not start with a blank. *)
Definition starts_solid (s : string) : bool :=
  match s with
  | String c _ => negb (is_space c)
  | EmptyString => true
  end.

(** No character of [s] is a backtick. *)
Definition no_backtick (s : string) : bool :=
  forallb (fun c => negb (Ascii.eqb c "`"%char)) (list_ascii_of_string s).

(** [s] without the prefix [p], when it starts with it. *)
Fixpoint drop_prefix (p s : string) : option string :=
  match p, s with
  | EmptyString, _ => Some s
  | String a p', String b s' =>
      if Ascii.eqb a b then drop_prefix p' s' else None
  | String _ _, EmptyString => None
  end.

Definition fence : string := "```".

(** [re.sub] of the pattern [^```(?:json)?\s*] by the empty string. *)
Definition strip_open (s : string) : string :=
  match drop_prefix fence s with
  | None => s
  | Some rest =>
      match drop_prefix "json" rest with
      | Some rest' => lstrip rest'
      | None => lstrip rest
      end
  end.

(** [s] matches [\s*```$]: blanks, a fence, and then the end of the string
    or its final newline; the second component is what follows the match. *)
Definition closing (s : string) : option string :=
  match drop_prefix fence (lstrip s) with
  | Some rest =>
      if (rest =? EmptyString) || (rest =? nl) then Some rest else None
  | None => None
  end.

(** [re.sub] of the pattern [\s*```$] by the empty string: the leftmost
    match is removed. *)
Fixpoint strip_close (s : string) : string :=
  match closing s with
  | Some rest => rest
  | None =>
      match s with
      | String c s' => String c (strip_close s')
      | EmptyString => EmptyString
      end
  end.

(** ** agent/extractor.py *)

Module Extractor.

(** A connection dict as the prompt describes it; the model may leave any
    key out. *)
Record ConnDict : Type := mkConn {
  conn_from : option string;
  conn_to : option string;
  conn_relationship : option string;
  conn_suspicion_level : option Z
}.

(** The dict returned by [extract_entities_and_connections]. *)
Record Extraction : Type := mkExtraction {
  entities_a : list string;
  entities_b : list string;
  connections : list ConnDict;
  insight : string
}.

(** What [json.loads] returns: a dict (seen through the four keys the
    extractor reads, each of which may be missing), a list (of query
    strings), or any other JSON value. *)
Record ParsedDict : Type := mkParsed {
  p_entities_a : option (list string);
  p_entities_b : option (list string);
  p_connections : option (list ConnDict);
  p_insight : option string
}.

Inductive json : Type :=
| JDict (d : ParsedDict)
| JList (items : list string)
| JScalar.

(** The arguments of [_client.chat.completions.create]. *)
Record Request : Type := mkRequest {
  model : string;
  max_completion_tokens : nat;
  system_content : string;
  user_content : string
}.

Definition fallback : Extraction :=
  mkExtraction [] [] [] "No connections found yet...".

(** Lines 43-46: the text blob, capped at 3000 characters. *)
Definition text_blob (search_results : list Search.SearchResult) : string :=
  let raw_text := join nl (map Search.content search_results) in
  if (3000 <? String.length raw_text)%nat then take 3000 raw_text else raw_text.

Definition prompt_head (topic_a topic_b : string) : string :=
  "Topics: '" ++ topic_a ++ "' and '" ++ topic_b ++ "'." ++ nl ++ nl
  ++ "Text:" ++ nl.

Definition prompt_tail : string :=
  nl ++ nl
  ++ "Extract entities and suspicious connections. "
  ++ "Return ONLY valid JSON in this exact structure:" ++ nl
  ++ "{" ++ nl
  ++ "  " ++ quoted "entities_a" ++ ": [" ++ quoted "entity1" ++ ", "
  ++ quoted "entity2" ++ "]," ++ nl
  ++ "  " ++ quoted "entities_b" ++ ": [" ++ quoted "entity1" ++ ", "
  ++ quoted "entity2" ++ "]," ++ nl
  ++ "  " ++ quoted "connections" ++ ": [" ++ nl
  ++ "    {" ++ quoted "from" ++ ": " ++ quoted "entity_name" ++ ", "
  ++ quoted "to" ++ ": " ++ quoted "entity_name" ++ ", "
  ++ quoted "relationship" ++ ": " ++ quoted "one sentence" ++ ", "
  ++ quoted "suspicion_level" ++ ": 7}" ++ nl
  ++ "  ]," ++ nl
  ++ "  " ++ quoted "insight" ++ ": "
  ++ quoted "one sentence summary of the most suspicious connection found"
  ++ nl ++ "}".

Definition user_prompt (topic_a topic_b raw_text : string) : string :=
  prompt_head topic_a topic_b ++ raw_text ++ prompt_tail.

Definition extraction_request (topic_a topic_b raw_text : string) : Request :=
  mkRequest "gpt-5.2" 4096
    "You are a conspiracy theorist AI. Extract entities and find suspicious connections."
    (user_prompt topic_a topic_b raw_text).

(** [response.choices[0].message.content.strip()]: [None] has no [strip]. *)
Definition content_strip (content : option string) : result string :=
  match content with
  | Some s => Ok (strip s)
  | None => Raise AttributeError
  end.

(** [parsed.get]: only a dict has it. *)
Definition as_dict (parsed : json) : result ParsedDict :=
  match parsed with
  | JDict d => Ok d
  | _ => Raise AttributeError
  end.

Definition fallback_queries (topic_a topic_b : string) : list string :=
  [ topic_a ++ " secret connections";
    topic_b ++ " hidden links";
    topic_a ++ " " ++ topic_b ++ " conspiracy" ].

Definition queries_request (topic_a topic_b previous_insight : string)
  : Request :=
  mkRequest "gpt-5.2" 1024
    "You are a conspiracy theorist AI. Find suspicious connections."
    ("Topics: '" ++ topic_a ++ "' and '" ++ topic_b ++ "'." ++ nl
     ++ "Previous insight: " ++ previous_insight ++ nl ++ nl
     ++ "Give me exactly 3 specific web search queries to dig deeper into the "
     ++ "suspicious connections between these topics. "
     ++ "Return ONLY a JSON array of 3 strings, nothing else.").

(** The parsed output is a list with at least one element. *)
Definition nonempty_array (parsed : result json) : bool :=
  match parsed with
  | Ok (JList (_ :: _)) => true
  | _ => false
  end.

(** [str(q)] of a str. *)
Definition str (q : string) : string := q.

Section WithServices.

(** The language model: the message content of the first choice, [None]
    when the model sent no content; any failure of the call is a [Raise]. *)
Variable chat : Request -> result (option string).
Variable json_loads : string -> result json.

(** The text handed to [json.loads]: the stripped content without its
    code fences. *)
Definition unfenced (content : option string) : result string :=
  raw_response <- content_strip content ;;
  Ok (strip_close (strip_open raw_response)).

(** Returns the extraction together with the requests sent to the model. *)
Definition extract_entities_and_connections (topic_a topic_b : string)
  (search_results : list Search.SearchResult) : Extraction * list Request :=
  let raw_text := text_blob search_results in
  if negb (truthy (strip raw_text)) then (fallback, [])
  else
    let request := extraction_request topic_a topic_b raw_text in
    (try_except
       (content <- chat request ;;
        raw_response <- unfenced content ;;
        parsed <- json_loads raw_response ;;
        d <- as_dict parsed ;;
        Ok (mkExtraction (Search.get (p_entities_a d) [])
                         (Search.get (p_entities_b d) [])
                         (Search.get (p_connections d) [])
                         (Search.get (p_insight d) (insight fallback))))
       (fun _ => fallback),
     [request]).

Definition get_deeper_search_queries (topic_a topic_b previous_insight : string)
  : list string :=
  try_except
    (content <- chat (queries_request topic_a topic_b previous_insight) ;;
     raw_response <- unfenced content ;;
     queries <- json_loads raw_response ;;
     match queries with
     | JList (q :: qs) => Ok (map str (firstn 3 (q :: qs)))
     | _ => Ok (fallback_queries topic_a topic_b)
     end)
    (fun _ => fallback_queries topic_a topic_b).

End WithServices.

End Extractor.

(** ** agent/senso.py *)

Module Senso.

Record Chunk : Type := mkChunk { chunk_text : option string }.

(** [response.json()] of the search end point. *)
Record SearchData : Type := mkData {
  answer : option string;
  results : option (list Chunk)
}.

(** [os.environ.get("SENSO_API_KEY") or None] *)
Definition _get_api_key (env : option string) : option string :=
  match env with
  | Some key => if truthy key then Some key else None
  | None => None
  end.

Definition no_results : string := "No results found for your query.".

Definition search_query (topic_a topic_b : string) : string :=
  "connections between " ++ topic_a ++ " and " ++ topic_b.

(** [bool(r.get("chunk_text"))] *)
Definition has_text (r : Chunk) : bool :=
  match chunk_text r with Some t => truthy t | None => false end.

(** The chunk texts that are present and not empty, in order. *)
Definition chunk_texts (results : list Chunk) : list string :=
  flat_map (fun r => match chunk_text r with
                     | Some t => if truthy t then [t] else []
                     | None => []
                     end) results.

Section WithService.

Variable env : option string.
(** [requests.post(...)], [raise_for_status()] and [response.json()] for
    the given API key and query. *)
Variable post : string -> string -> result SearchData.

Definition query_findings (topic_a topic_b : string) : string :=
  match _get_api_key env with
  | None => EmptyString
  | Some api_key =>
      try_except
        (data <- post api_key (search_query topic_a topic_b) ;;
         let answer := Search.get (answer data) EmptyString in
         if truthy answer && negb (answer =? no_results)
         then Ok (take 500 answer)
         else
           let results := Search.get (results data) [] in
           let combined :=
             join " " (map (fun r => Search.get (chunk_text r) EmptyString)
                           (filter has_text results)) in
           Ok (take 500 combined))
        (fun _ => EmptyString)
  end.

End WithService.

End Senso.

(** ** agent/vision.py *)

Module Vision.

Definition vision_prompt (topic_a topic_b : string) : string :=
  "You are a conspiracy theorist investigating connections between '"
  ++ topic_a ++ "' and '" ++ topic_b ++ "'. "
  ++ "Analyze this image for any suspicious details, hidden symbols, or connections to either topic. "
  ++ "Respond in EXACTLY 1-2 sentences as a paranoid conspiracy theorist. Be specific about what you see.".

(** The module-level [_client] is [None] without an API key; otherwise it
    maps an image URL and a prompt to the content of the first response. *)
Definition Client : Type := option (string -> string -> result string).

Definition analyze_image (_client : Client) (image_url topic_a topic_b : string)
  : string :=
  match _client with
  | None => EmptyString
  | Some create =>
      try_except
        (content <- create image_url (vision_prompt topic_a topic_b) ;;
         Ok (strip content))
        (fun _ => EmptyString)
  end.

End Vision.

(** ** agent/agent.py *)

Module Agent.

Import Extractor.

(** The external services as one round sees them. *)
Record Services : Type := mkServices {
  senso_env : option string;
  senso_post : string -> string -> result Senso.SearchData;
  tavily : Search.Client;
  chat : Request -> result (option string);
  json_loads : string -> result json;
  reka : Vision.Client;
  generate_narration : Z -> string -> string -> string -> Z -> string
}.

Record TopConnection : Type := mkTop {
  top_from : string;
  top_to : string;
  top_relationship : string
}.

Inductive Event : Type :=
| round_start (round total_rounds : Z)
| senso_query (has_context : bool) (context_length : nat)
| search_complete (result_count : nat) (round : Z)
| extraction_complete (extracted : Extraction)
| graph_update (entities : list (string * string))
    (connections : list ConnDict) (entity_count : Z)
| image_clue (image_url clue_text : string) (round : Z)
| narration (text : string) (round : Z)
| complete (total_entities : Z) (total_connections : nat)
    (top_connections : list TopConnection).

(** [_emit]: the event reaches the callback when one was given. *)
Definition _emit (on_event : bool) (e : Event) : list Event :=
  if on_event then [e] else [].

(** *** Step 2: search (the results and the image URLs of a round) *)

Definition previous_findings (previous_context : string) : Search.SearchResult :=
  Search.mkResult "Previous Findings" EmptyString previous_context.

(** The loop over [deeper_queries]: one extra search per query. *)
Definition deeper_search (client : Search.Client)
  (acc : list Search.SearchResult * list string) (query : string)
  : list Search.SearchResult * list string :=
  let (extra_results, extra_images) := Search.search_topic client query 3 in
  ((fst acc ++ extra_results)%list, (snd acc ++ extra_images)%list).

(** The connection results and the images gathered with them. *)
Definition connection_search (sv : Services) (round_num : Z)
  (topic_a topic_b last_insight : string)
  : list Search.SearchResult * list string :=
  if (round_num =? 1)%Z
  then Search.search_connections (tavily sv) topic_a topic_b
  else
    let deeper_queries :=
      get_deeper_search_queries (chat sv) (json_loads sv)
        topic_a topic_b last_insight in
    fold_left (deeper_search (tavily sv)) deeper_queries
      (Search.search_connections (tavily sv) topic_a topic_b).

(** [all_results], built from the three result lists and the context. *)
Definition all_results (topic_a_results topic_b_results : list Search.SearchResult)
  (previous_context : string) (connection_results : list Search.SearchResult)
  : list Search.SearchResult :=
  ((topic_a_results ++ topic_b_results)
   ++ (if truthy previous_context then [previous_findings previous_context]
       else [])
   ++ connection_results)%list.

Definition search_round (sv : Services) (round_num : Z)
  (topic_a topic_b last_insight previous_context : string)
  : list Search.SearchResult * list string :=
  let (connection_results, round_images) :=
    connection_search sv round_num topic_a topic_b last_insight in
  let (topic_a_results, topic_a_images) :=
    Search.search_topic (tavily sv) topic_a 5 in
  let (topic_b_results, topic_b_images) :=
    Search.search_topic (tavily sv) topic_b 5 in
  (all_results topic_a_results topic_b_results previous_context
     connection_results,
   ((round_images ++ topic_a_images) ++ topic_b_images)%list).

(** The extraction text in the words of the specification: the first 3000
    characters of the concatenated contents of the topic-A results, the
    Previous Findings pseudo-result (when the context is not empty), the
    topic-B results and the connection results, in that order. *)
Definition claimed_order (topic_a_results topic_b_results : list Search.SearchResult)
  (previous_context : string) (connection_results : list Search.SearchResult)
  : list Search.SearchResult :=
  (topic_a_results
   ++ (if truthy previous_context then [previous_findings previous_context]
       else [])
   ++ topic_b_results ++ connection_results)%list.

Definition claimed_extraction_text
  (topic_a_results topic_b_results : list Search.SearchResult)
  (previous_context : string) (connection_results : list Search.SearchResult)
  : string :=
  take 3000
    (String.concat EmptyString
       (map Search.content
          (claimed_order topic_a_results topic_b_results previous_context
             connection_results))).

(** *** Step 4: store in the graph *)

Definition then_ {A B} (m : Graph.method A) (k : A -> Graph.method B)
  : Graph.method B := fun graph =>
  match m graph with
  | (Ok a, graph') => k a graph'
  | (Raise e, graph') => (Raise e, graph')
  end.

Fixpoint for_each {A} (body : A -> Graph.method unit) (l : list A)
  : Graph.method unit :=
  match l with
  | [] => fun graph => (Ok tt, graph)
  | x :: rest => then_ (body x) (fun _ => for_each body rest)
  end.

(** [d[key]] *)
Definition getitem {A} (key : string) (field : option A) : result A :=
  match field with
  | Some v => Ok v
  | None => Raise (KeyError key)
  end.

(** The arguments of the [add_connection] call, evaluated left to right. *)
Definition connection_args (conn : ConnDict)
  : result (string * string * string * Z) :=
  f <- getitem "from" (conn_from conn) ;;
  t <- getitem "to" (conn_to conn) ;;
  r <- getitem "relationship" (conn_relationship conn) ;;
  Ok (f, t, r, Search.get (conn_suspicion_level conn) 5%Z).

Definition store_connection (conn : ConnDict) : Graph.method unit :=
  fun graph =>
  match connection_args conn with
  | Ok (f, t, r, s) => Graph.add_connection f t r s graph
  | Raise e => (Raise e, graph)
  end.

Definition store_in_graph (topic_a topic_b : string) (round_num : Z)
  (extracted : Extraction) : Graph.method Z :=
  then_ (for_each (fun entity => Graph.add_entity entity topic_a round_num)
                  (entities_a extracted)) (fun _ =>
  then_ (for_each (fun entity => Graph.add_entity entity topic_b round_num)
                  (entities_b extracted)) (fun _ =>
  then_ (for_each store_connection (connections extracted)) (fun _ =>
  Graph.get_entity_count))).

(** *** Step 5b: the images of the round *)

(** [dict.fromkeys(l)]: a key is inserted when it is not in the dict yet;
    the dict keeps its keys in insertion order. *)
Fixpoint fromkeys_into (keys l : list string) : list string :=
  match l with
  | [] => keys
  | x :: l' =>
      fromkeys_into
        (if existsb (String.eqb x) keys then keys else (keys ++ [x])%list) l'
  end.

Definition fromkeys (l : list string) : list string := fromkeys_into [] l.

Definition unique_images (round_images : list string) : list string :=
  firstn 2 (fromkeys round_images).

Definition differs (x y : string) : bool := negb (y =? x).

(** [y] is not among [keys]. *)
Definition fresh (keys : list string) (y : string) : bool :=
  negb (existsb (String.eqb y) keys).

(** Deduplication by first occurrence, in first-seen order: an element is
    kept where it first occurs and dropped from the rest of the list. *)
Fixpoint first_seen (l : list string) : list string :=
  match l with
  | [] => []
  | x :: l' => x :: filter (differs x) (first_seen l')
  end.

(** One turn of the loop over [unique_images]. *)
Definition image_step (sv : Services) (on_event : bool) (round_num : Z)
  (topic_a topic_b image_url : string) : list Event :=
  let clue := Vision.analyze_image (reka sv) image_url topic_a topic_b in
  if truthy clue then _emit on_event (image_clue image_url clue round_num)
  else [].

(** The URLs handed to [analyze_image], in call order, and the events. *)
Definition analyze_images (sv : Services) (on_event : bool) (round_num : Z)
  (topic_a topic_b : string) (round_images : list string)
  : list string * list Event :=
  let unique := unique_images round_images in
  (unique, flat_map (image_step sv on_event round_num topic_a topic_b) unique).

(** *** After the rounds: the summary *)

(** [sorted(conns, key=suspicion, reverse=True)]: a stable sort, so equal
    keys keep the order of [conns]. *)
Fixpoint insert_by_suspicion (c : Graph.Connection) (l : list Graph.Connection)
  : list Graph.Connection :=
  match l with
  | [] => [c]
  | x :: l' =>
      if (Graph.c_suspicion c <? Graph.c_suspicion x)%Z
      then x :: insert_by_suspicion c l'
      else c :: l
  end.

Fixpoint sorted_by_suspicion (conns : list Graph.Connection)
  : list Graph.Connection :=
  match conns with
  | [] => []
  | c :: rest => insert_by_suspicion c (sorted_by_suspicion rest)
  end.



Definition top_entry (c : Graph.Connection) : TopConnection :=
  mkTop (Graph.c_from c) (Graph.c_to c) (take 80 (Graph.c_relationship c)).

Definition top_connections_of (conns : list Graph.Connection)
  : list TopConnection :=
  map top_entry (firstn 5 (sorted_by_suspicion conns)).

(** *** The run *)

Record Run : Type := mkRun {
  graph : Graph.ConspiracyGraph;
  events : list Event
}.

Definition action (A : Type) : Type := Run -> result A * Run.

Definition ret {A} (a : A) : action A := fun st => (Ok a, st).

Definition seq {A B} (m : action A) (k : A -> action B) : action B :=
  fun st =>
  match m st with
  | (Ok a, st') => k a st'
  | (Raise e, st') => (Raise e, st')
  end.

Notation "x <~ m ;; k" := (seq m (fun x => k))
  (at level 61, m at next level, right associativity).

Definition emit (on_event : bool) (e : Event) : action unit := fun st =>
  (Ok tt, mkRun (graph st) (events st ++ _emit on_event e)%list).

Definition emit_all (es : list Event) : action unit := fun st =>
  (Ok tt, mkRun (graph st) (events st ++ es)%list).

Definition on_graph {A} (m : Graph.method A) : action A := fun st =>
  let (r, g) := m (graph st) in (r, mkRun g (events st)).

(** The body of the loop over the rounds; returns the round's insight. *)
Definition round (sv : Services) (on_event : bool) (topic_a topic_b : string)
  (rounds round_num : Z) (last_insight : string) : action string :=
  _ <~ emit on_event (round_start round_num rounds) ;;
  let previous_context :=
    Senso.query_findings (senso_env sv) (senso_post sv) topic_a topic_b in
  _ <~ emit on_event
        (senso_query (truthy previous_context)
           (if truthy previous_context then String.length previous_context
            else 0%nat)) ;;
  let (results, round_images) :=
    search_round sv round_num topic_a topic_b last_insight previous_context in
  _ <~ emit on_event (search_complete (List.length results) round_num) ;;
  let extracted :=
    fst (extract_entities_and_connections (chat sv) (json_loads sv)
           topic_a topic_b results) in
  _ <~ emit on_event (extraction_complete extracted) ;;
  entity_count <~ on_graph (store_in_graph topic_a topic_b round_num extracted) ;;
  _ <~ emit on_event
        (graph_update
           (map (fun e => (e, topic_a)) (entities_a extracted)
            ++ map (fun e => (e, topic_b)) (entities_b extracted))%list
           (connections extracted) entity_count) ;;
  _ <~ emit_all
        (snd (analyze_images sv on_event round_num topic_a topic_b round_images)) ;;
  let text :=
    generate_narration sv round_num topic_a topic_b (insight extracted)
      entity_count in
  _ <~ emit on_event (narration text round_num) ;;
  ret (insight extracted).

(** [for round_num in range(1, rounds + 1)], with [todo] rounds left. *)
Fixpoint rounds_loop (world : Z -> Services) (on_event : bool)
  (topic_a topic_b : string) (rounds : Z) (todo : nat) (round_num : Z)
  (last_insight : string) : action unit :=
  match todo with
  | O => ret tt
  | S todo' =>
      insight <~ round (world round_num) on_event topic_a topic_b rounds
                   round_num last_insight ;;
      rounds_loop world on_event topic_a topic_b rounds todo'
        (round_num + 1)%Z insight
  end.

Definition summary (on_event : bool) : action unit :=
  total <~ on_graph Graph.get_entity_count ;;
  conns <~ on_graph Graph.get_connections ;;
  _ <~ on_graph Graph.close ;;
  emit on_event
    (complete total (List.length conns) (top_connections_of conns)).

(** What extraction returns in a round, given the insight carried in. *)
Definition round_extraction (sv : Services) (topic_a topic_b : string)
  (round_num : Z) (last_insight : string) : Extraction :=
  let previous_context :=
    Senso.query_findings (senso_env sv) (senso_post sv) topic_a topic_b in
  fst (extract_entities_and_connections (chat sv) (json_loads sv)
         topic_a topic_b
         (fst (search_round sv round_num topic_a topic_b last_insight
                 previous_context))).

(** [last_insight] once [n] rounds have run. *)
Fixpoint insight_after (world : Z -> Services) (topic_a topic_b : string)
  (n : nat) : string :=
  match n with
  | O => EmptyString
  | S n' =>
      insight (round_extraction (world (Z.of_nat n)) topic_a topic_b
                 (Z.of_nat n) (insight_after world topic_a topic_b n'))
  end.

(** What extraction returns in round [n] (counted from 1) of a run. *)
Definition extraction_of_round (world : Z -> Services)
  (topic_a topic_b : string) (n : nat) : Extraction :=
  round_extraction (world (Z.of_nat n)) topic_a topic_b (Z.of_nat n)
    (insight_after world topic_a topic_b (pred n)).

(** The first of the keys from, to and relationship that the dict lacks. *)
Definition first_missing_key (conn : ConnDict) : option string :=
  match conn_from conn, conn_to conn, conn_relationship conn with
  | None, _, _ => Some "from"
  | Some _, None, _ => Some "to"
  | Some _, Some _, None => Some "relationship"
  | Some _, Some _, Some _ => None
  end.

Definition lacks_required_key (conn : ConnDict) : bool :=
  match first_missing_key conn with Some _ => true | None => false end.

Definition run_agent (GraphDatabase : option (result Graph.Driver))
  (world : Z -> Services) (topic_a topic_b : string) (rounds : Z)
  (on_event : bool) : result unit * Run :=
  (_ <~ on_graph Graph.clear ;;
   _ <~ rounds_loop world on_event topic_a topic_b rounds (Z.to_nat rounds)
          1%Z EmptyString ;;
   summary on_event)
  (mkRun (Graph.__init__ GraphDatabase) []).

End Agent.

(** ** The store as a function of the calls made on it *)

Module History.

Import Graph.

(** The statement a call runs on the database. *)
Definition statement (c : call) (db : Db) : Db :=
  match c with
  | Clear => delete_all db
  | AddEntity n t r => upsert_entity n t r db
  | AddConnection f t rel s => upsert_connection f t rel s db
  | _ => db
  end.

Definition statements (calls : list call) (db : Db) : Db :=
  fold_left (fun d c => statement c d) calls db.




(** What one call does to the record of the connection from [f] to [t]. *)
Definition link_step (f t : string) (acc : option Connection) (c : call)
  : option Connection :=
  match c with
  | AddConnection f' t' rel s =>
      if (f' =? f) && (t' =? t) then Some (mkConnection f t rel s) else acc
  | _ => acc
  end.




Definition to_list {A} (o : option A) : list A :=
  match o with Some a => [a] | None => [] end.


(** The database yields exactly the connection record [acc] for the
    ordered pair of names. *)
Definition holds_link (f t : string) (db : Db) (acc : option Connection)
  : Prop :=
  filter (between f t) (match_connections db) = to_list acc.

(** Every relationship joins two existing nodes. *)
Definition in_range (db : Db) : Prop :=
  Forall (fun r => (r_src r < List.length (nodes db))%nat
                   /\ (r_dst r < List.length (nodes db))%nat) (rels db).

End History.

(** ** agent/narrator.py *)

Module Narrator.

Definition prompt_1 : string :=
  "You ARE the conspiracy theorist. You just stumbled onto "
  ++ "something BIG. Talk like a paranoid late-night radio host "
  ++ "whispering into the mic. Use phrases like 'follow the "
  ++ "money', 'they don't want you to see this', 'open your eyes'. "
  ++ "Respond in EXACTLY 2-3 sentences. First person. You're "
  ++ "narrating YOUR investigation.".

Definition prompt_2 : string :=
  "You ARE a deep-state-obsessed conspiracy theorist who is "
  ++ "SEEING THE PATTERN. You're pacing your apartment, pinning "
  ++ "strings to your cork board, muttering to yourself. Use "
  ++ "dramatic pauses (ellipses), rhetorical questions, and "
  ++ "phrases like 'coincidence? I THINK NOT' and 'the rabbit hole "
  ++ "goes deeper'. Respond in EXACTLY 2-3 sentences. First "
  ++ "person, increasingly paranoid.".

Definition prompt_3 : string :=
  "You ARE a FULLY UNHINGED conspiracy theorist who has CRACKED "
  ++ "THE CODE. You're recording a frantic voice memo at 3am. Use "
  ++ "ALL CAPS for key revelations, reference shadow cabals and "
  ++ "hidden agendas, insist NOTHING is a coincidence and "
  ++ "EVERYTHING is connected. Be wildly entertaining. Respond in "
  ++ "EXACTLY 2-3 sentences. First person, peak unhinged energy.".

(** [_SYSTEM_PROMPTS.get(round_num, _SYSTEM_PROMPTS[3])] *)
Definition system_prompt (round_num : Z) : string :=
  match round_num with
  | 1%Z => prompt_1
  | 2%Z => prompt_2
  | 3%Z => prompt_3
  | _ => prompt_3
  end.

(** [_FALLBACKS.get(round_num, _FALLBACKS[3])] *)
Definition fallback (round_num : Z) : string :=
  match round_num with
  | 1%Z => "Interesting..."
  | 2%Z => "THIS IS NOT A COINCIDENCE."
  | 3%Z => "THEY DON'T WANT YOU TO KNOW THIS."
  | _ => "THEY DON'T WANT YOU TO KNOW THIS."
  end.

(** [str(n)] of an int, as an f-string formats it. *)
Definition str_int (n : Z) : string := NilZero.string_of_int (Z.to_int n).

Definition user_prompt (topic_a topic_b insight : string)
  (connection_count : Z) : string :=
  "React to this finding about " ++ topic_a ++ " and " ++ topic_b ++ ": '"
  ++ insight ++ "'. " ++ str_int connection_count
  ++ " connections found so far.".

Definition narration_request (round_num : Z)
  (topic_a topic_b insight : string) (connection_count : Z)
  : Extractor.Request :=
  Extractor.mkRequest "gpt-5.2" 1024 (system_prompt round_num)
    (user_prompt topic_a topic_b insight connection_count).

(** One step of the iteration over the stream: it raises, or it yields a
    chunk, seen as its [delta.content] ([None] when the chunk has no choice
    or its delta has no content). *)
Definition Stream : Type := list (result (option string)).

(** The streaming client: [create(..., stream=True)] raises or returns a
    stream. *)
Definition Client : Type := Extractor.Request -> result Stream.

(** The loop [for chunk in stream], appending each non-empty content. *)
Fixpoint collect (stream : Stream) (chunks : list string)
  : result (list string) :=
  match stream with
  | [] => Ok chunks
  | Raise e :: _ => Raise e
  | Ok delta :: rest =>
      collect rest
        (match delta with
         | Some text => if truthy text then (chunks ++ [text])%list else chunks
         | None => chunks
         end)
  end.

Definition generate_narration (_client : Client) (round_num : Z)
  (topic_a topic_b insight : string) (connection_count : Z) : string :=
  try_except
    (stream <- _client (narration_request round_num topic_a topic_b insight
                          connection_count) ;;
     chunks <- collect stream [] ;;
     Ok (strip (String.concat EmptyString chunks)))
    (fun _ => fallback round_num).

(** The contents a stream delivers, in order. *)
Definition contents (stream : Stream) : list string :=
  flat_map (fun step => match step with
                        | Ok (Some text) => if truthy text then [text] else []
                        | _ => []
                        end) stream.

(** Some step of the stream raises. *)
Definition breaks (stream : Stream) : bool :=
  existsb (fun step => match step with Raise _ => true | Ok _ => false end)
    stream.

(** The persona bucket of a round: 1, 2, or 3 for every other number. *)
Definition bucket (round_num : Z) : Z :=
  if ((round_num =? 1) || (round_num =? 2))%Z then round_num else 3%Z.

End Narrator.

(** ** The events of a run, by kind *)

Module Protocol.

Import Agent.

Definition kind (e : Event) : string :=
  match e with
  | round_start _ _ => "round_start"
  | senso_query _ _ => "senso_query"
  | search_complete _ _ => "search_complete"
  | extraction_complete _ => "extraction_complete"
  | graph_update _ _ _ => "graph_update"
  | image_clue _ _ _ => "image_clue"
  | narration _ _ => "narration"
  | complete _ _ _ => "complete"
  end.

(** The kinds of the events of a round that ran to its end with [clues]
    image clues. *)
Definition round_kinds (clues : nat) : list string :=
  (["round_start"; "senso_query"; "search_complete"; "extraction_complete";
    "graph_update"]
   ++ repeat "image_clue" clues ++ ["narration"])%list.

(** What a [senso_query] event says about the prior context satisfies
    [P]; the other events are not concerned. *)
Definition context_report (P : bool -> nat -> Prop) (e : Event) : Prop :=
  match e with
  | senso_query has_context context_length => P has_context context_length
  | _ => True
  end.

(** The event reports no entity count, or the count 0. *)
Definition counts_nothing (e : Event) : Prop :=
  match e with
  | graph_update _ _ n => n = 0%Z
  | _ => True
  end.

Definition terminal (e : Event) : bool :=
  match e with
  | complete _ _ _ => true
  | _ => false
  end.

(** The entity count an event reports, when it is a [graph_update]. *)
Definition reported_count (e : Event) : option Z :=
  match e with
  | graph_update _ _ n => Some n
  | _ => None
  end.

End Protocol.

(** ** agent/server.py: the thread that runs the agent *)

Module Server.






End Server.

(** ** Limits of a round *)

Module Limits.

(** The most image URLs a round can gather: three searches in round 1,
    up to three more in the later rounds, three URLs each. *)
Definition image_budget (round_num : Z) : nat :=
  if (round_num =? 1)%Z then 9 else 18.

End Limits.

(** ** Sample services, used to run the definitions *)

Module Samples.

Import Search Extractor.

Definition apollo : SearchResult :=
  mkResult "Apollo 11" "https://example.org/apollo" "Apollo footage".

(** A model answer: a JSON object with an insight and one connection that
    has no key [to], wrapped in a code fence. *)
Definition object_text : string :=
  "{" ++ quoted "insight" ++ ": " ++ quoted "They knew." ++ ", "
  ++ quoted "connections" ++ ": [{" ++ quoted "from" ++ ": " ++ quoted "NASA"
  ++ ", " ++ quoted "relationship" ++ ": " ++ quoted "hides" ++ "}]}".

Definition array_text : string :=
  "[" ++ quoted "q1" ++ ", " ++ quoted "q2" ++ ", " ++ quoted "q3" ++ ", "
  ++ quoted "q4" ++ "]".

Definition fenced (text : string) : string :=
  fence ++ "json" ++ nl ++ text ++ nl ++ fence.

Definition chat_object : Request -> result (option string) :=
  fun _ => Ok (Some (fenced object_text)).

Definition chat_array : Request -> result (option string) :=
  fun _ => Ok (Some (fenced array_text)).

Definition chat_down : Request -> result (option string) :=
  fun _ => Raise TransportError.

Definition nasa_hides : ConnDict :=
  mkConn (Some "NASA") None (Some "hides") None.

(** [json.loads] on the two sample texts. *)
Definition loads (s : string) : result json :=
  if s =? object_text
  then Ok (JDict (mkParsed None None (Some [nasa_hides]) (Some "They knew.")))
  else if s =? array_text then Ok (JList ["q1"; "q2"; "q3"; "q4"])
  else Raise JSONDecodeError.

Definition tavily_apollo : Search.Client :=
  Some (fun _ _ =>
          Ok (Some (mkResponse
                      (Some [mkRaw (Some "Apollo 11")
                               (Some "https://example.org/apollo")
                               (Some "Apollo footage")])
                      (Some ["img/a"; "img/b"; "img/a"; "img/c"])))).

Definition reka_flag : Vision.Client :=
  Some (fun image_url _ =>
          if image_url =? "img/a" then Ok " The flag waves. "
          else Ok EmptyString).

Definition senso_chunks : string -> string -> result Senso.SearchData :=
  fun _ _ =>
    Ok (Senso.mkData (Some Senso.no_results)
          (Some [Senso.mkChunk (Some "Area 51"); Senso.mkChunk None;
                 Senso.mkChunk (Some EmptyString);
                 Senso.mkChunk (Some "Roswell")])).


(** A model answer whose only connection has all its keys but
    [suspicion_level]. *)
Definition keyed_text : string :=
  "{" ++ quoted "entities_a" ++ ": [" ++ quoted "NASA" ++ "], "
  ++ quoted "connections" ++ ": [{" ++ quoted "from" ++ ": " ++ quoted "NASA"
  ++ ", " ++ quoted "to" ++ ": " ++ quoted "Area 51" ++ ", "
  ++ quoted "relationship" ++ ": " ++ quoted "hides" ++ "}]}".

Definition nasa_area51 : ConnDict :=
  mkConn (Some "NASA") (Some "Area 51") (Some "hides") None.

Definition loads_keyed (s : string) : result json :=
  if s =? keyed_text
  then Ok (JDict (mkParsed (Some ["NASA"]) None (Some [nasa_area51]) None))
  else Raise JSONDecodeError.

(** A world whose model always sends the keyed answer. *)
Definition keyed_world : Z -> Agent.Services := fun _ =>
  Agent.mkServices None senso_chunks tavily_apollo
    (fun _ => Ok (Some (fenced keyed_text))) loads_keyed reka_flag
    (Narrator.generate_narration (fun _ => Ok [Ok (Some "Follow the money.")])).



(** A world in which every round sees the sample services. *)
Definition sample_world : Z -> Agent.Services := fun _ =>
  Agent.mkServices None senso_chunks tavily_apollo chat_object loads reka_flag
    (fun _ _ _ insight _ => insight).

End Samples.

(** * Properties *)

(** ** Strings *)

Lemma take_length_le (n : nat) (s : string) : (String.length (take n s) <= n)%nat.
Proof.
  revert s; induction n as [|n IH]; intros [|c s]; simpl; try lia.
  specialize (IH s); lia.
Qed.

Lemma take_length (n : nat) (s : string) :
  String.length (take n s) = Nat.min n (String.length s).
Proof.
  revert s; induction n as [|n IH]; intros [|c s]; simpl; auto.
Qed.

Lemma take_all (n : nat) (s : string) :
  (String.length s <= n)%nat -> take n s = s.
Proof.
  revert s; induction n as [|n IH]; intros [|c s]; simpl; intros H;
    try reflexivity; try lia.
  f_equal; apply IH; lia.
Qed.

Lemma take_prefix (n : nat) (s : string) :
  exists rest, s = take n s ++ rest.
Proof.
  revert s; induction n as [|n IH]; intros [|c s]; simpl.
  - exists EmptyString; reflexivity.
  - exists (String c s); reflexivity.
  - exists EmptyString; reflexivity.
  - destruct (IH s) as [rest E]. exists rest. now rewrite <- E.
Qed.

(** ** The graph store *)

Section GraphStore.

Import Graph.

(** *** The guard invariant *)

Lemma method_keeps_available (c : call) (self : ConspiracyGraph) :
  available (after c self) = available self.
Proof.
  destruct self as [[|] [d|]], c; try reflexivity;
    unfold after, clear, add_entity, add_connection, get_all_entities,
      get_connections, get_entity_count, close, run_on, session_run,
      driver_close; cbn;
    destruct (online d); reflexivity.
Qed.

Lemma unavailable_has_no_driver (self : ConspiracyGraph) :
  reachable self -> available self = false -> _driver self = None.
Proof.
  induction 1 as [gd | self c _ IH | self up _ IH]; intros Hav.
  - destruct gd as [[d|e]|]; simpl in *; try reflexivity.
    destruct (online d); simpl in *; [discriminate | reflexivity].
  - rewrite method_keeps_available in Hav. specialize (IH Hav).
    destruct self as [av dr]; simpl in *; subst.
    destruct c; reflexivity.
  - simpl in *. now rewrite (IH Hav).
Qed.

(** C3.  On every store object that the constructor and the methods can
    produce, once the store is unavailable (the flag is false or there is
    no driver) each of the seven operations returns its default without
    raising, whatever its arguments, and leaves the object as it was. *)
Theorem unavailable_store_is_inert (self : ConspiracyGraph) :
  reachable self -> unavailable self ->
  clear self = (Ok tt, self)
  /\ (forall name topic round_num,
        add_entity name topic round_num self = (Ok tt, self))
  /\ (forall from_entity to_entity relationship suspicion,
        add_connection from_entity to_entity relationship suspicion self
        = (Ok tt, self))
  /\ get_all_entities self = (Ok [], self)
  /\ get_connections self = (Ok [], self)
  /\ get_entity_count self = (Ok 0%Z, self)
  /\ close self = (Ok tt, self).
Proof.
  intros Hreach Hun.
  assert (Hnone : _driver self = None).
  { destruct Hun as [Hav | Hdr]; [| exact Hdr].
    now apply unavailable_has_no_driver. }
  destruct self as [av dr]; simpl in Hnone; subst dr.
  destruct av; repeat split; reflexivity.
Qed.

Lemma unavailable_store_is_inert_witness :
  let self := __init__ (Some (Ok (mkDriver (mkDb [] []) false))) in
  clear self = (Ok tt, self)
  /\ (forall name topic round_num,
        add_entity name topic round_num self = (Ok tt, self))
  /\ (forall from_entity to_entity relationship suspicion,
        add_connection from_entity to_entity relationship suspicion self
        = (Ok tt, self))
  /\ get_all_entities self = (Ok [], self)
  /\ get_connections self = (Ok [], self)
  /\ get_entity_count self = (Ok 0%Z, self)
  /\ close self = (Ok tt, self).
Proof.
  intro self.
  apply (unavailable_store_is_inert self).
  - apply reach_init.
  - left; reflexivity.
Defined.

(** *** Updating the one element that carries a key *)

Section UniqueKey.

Context {A K : Type} (key : A -> K) (hit : A -> bool) (upd : A -> A).

Local Abbreviation update := (fun x : A => if hit x then upd x else x).

Lemma filter_none (l : list A) :
  existsb hit l = false -> filter hit l = [].
Proof.
  induction l as [|x l IH]; simpl; intros H; [reflexivity|].
  apply orb_false_iff in H as [Hx Hl]. rewrite Hx. now apply IH.
Qed.

Lemma update_misses (l : list A) :
  existsb hit l = false -> map update l = l.
Proof.
  induction l as [|x l IH]; simpl; intros H; [reflexivity|].
  apply orb_false_iff in H as [Hx Hl].
  rewrite Hx. f_equal. now apply IH.
Qed.

Hypothesis same_key : forall x y, hit x = true -> hit y = true -> key x = key y.

Lemma hit_once (x : A) (l : list A) :
  NoDup (map key (x :: l)) -> hit x = true -> existsb hit l = false.
Proof.
  intros Hnd Hx. destruct (existsb hit l) eqn:E; [|reflexivity].
  apply existsb_exists in E as [y [Hin Hy]].
  inversion Hnd as [|? ? Hnot _]; subst. exfalso; apply Hnot.
  rewrite (same_key x y Hx Hy). now apply in_map.
Qed.

Lemma filter_update_unique (v : A) (l : list A) :
  (forall x, hit x = true -> upd x = v) -> hit v = true ->
  NoDup (map key l) -> existsb hit l = true ->
  filter hit (map update l) = [v].
Proof.
  intros Hupd Hv. induction l as [|x l IH]; simpl; intros Hnd Hex.
  - discriminate.
  - destruct (hit x) eqn:Hx.
    + rewrite (Hupd x Hx). simpl. rewrite Hv. f_equal.
      pose proof (hit_once x l Hnd Hx) as Hl.
      rewrite (update_misses l Hl). now apply filter_none.
    + simpl. rewrite Hx. apply IH; [now inversion Hnd | exact Hex].
Qed.

End UniqueKey.

(** *** Nodes *)

Lemma has_name_In (name : string) (ns : list Node) :
  existsb (has_name name) ns = true <-> In name (map n_name ns).
Proof.
  rewrite existsb_exists, in_map_iff. unfold has_name.
  split; intros [x [H1 H2]]; exists x.
  - apply String.eqb_eq in H2. auto.
  - split; [exact H2 | now apply String.eqb_eq].
Qed.

Lemma NoDup_snoc {B} (l : list B) (x : B) :
  NoDup l -> ~ In x l -> NoDup (l ++ [x]).
Proof.
  intros Hnd Hnot. apply NoDup_app; [exact Hnd | repeat constructor; auto |].
  intros y Hy [<- | []]. exact (Hnot Hy).
Qed.

Lemma merge_node_names (name : string) (db : Db) :
  NoDup (map n_name (nodes db)) ->
  NoDup (map n_name (nodes (merge_node name db)))
  /\ existsb (has_name name) (nodes (merge_node name db)) = true.
Proof.
  intros Hnd. unfold merge_node.
  destruct (existsb (has_name name) (nodes db)) eqn:E; [now split|].
  simpl. split.
  - rewrite map_app. cbn [map n_name]. apply NoDup_snoc; [exact Hnd|].
    intros Hin. apply has_name_In in Hin. rewrite Hin in E. discriminate.
  - rewrite existsb_app. simpl. unfold has_name at 2. simpl.
    rewrite String.eqb_refl. now rewrite orb_true_r.
Qed.


Lemma set_entity_names (name topic : string) (round : Z) (db : Db) :
  map n_name (nodes (set_entity name topic round db)) = map n_name (nodes db).
Proof.
  simpl. rewrite map_map. apply map_ext. intros n.
  now destruct (has_name name n).
Qed.

Lemma upsert_entity_names (name topic : string) (round : Z) (db : Db) :
  NoDup (map n_name (nodes db)) ->
  NoDup (map n_name (nodes (upsert_entity name topic round db))).
Proof.
  intros Hnd. unfold upsert_entity. rewrite set_entity_names.
  now apply merge_node_names.
Qed.



Lemma add_entity_serving (self : ConspiracyGraph) (db : Db)
  (name topic : string) (round_num : Z) :
  serving self db ->
  add_entity name topic round_num self
  = (Ok tt, mkGraph true (Some (mkDriver (upsert_entity name topic round_num db) true))).
Proof.
  intros [Hav Hdr]. destruct self as [av dr]; simpl in *; subst.
  reflexivity.
Qed.



(** *** Positions of nodes *)

Lemma ids_from_nil (i : nat) (name : string) (ns : list Node) :
  ~ In name (map n_name ns) -> ids_from i name ns = [].
Proof.
  revert i; induction ns as [|n ns IH]; simpl; intros i Hnot; [reflexivity|].
  unfold has_name. destruct (n_name n =? name) eqn:E.
  - apply String.eqb_eq in E. exfalso; apply Hnot; now left.
  - apply IH. intros Hin; apply Hnot; now right.
Qed.

Lemma ids_from_single (i : nat) (name : string) (ns : list Node) :
  NoDup (map n_name ns) -> In name (map n_name ns) ->
  exists a x, ids_from i name ns = [(i + a)%nat]
              /\ nth_error ns a = Some x /\ n_name x = name.
Proof.
  revert i; induction ns as [|n ns IH]; simpl; intros i Hnd Hin; [easy|].
  inversion Hnd as [|? ? Hnot Hnd']; subst.
  unfold has_name. destruct (n_name n =? name) eqn:E.
  - apply String.eqb_eq in E. subst name.
    exists 0%nat, n. rewrite (ids_from_nil _ _ _ Hnot), Nat.add_0_r. auto.
  - destruct Hin as [Heq | Hin].
    + apply String.eqb_neq in E. contradiction.
    + destruct (IH (S i) Hnd' Hin) as [a [x [H1 [H2 H3]]]].
      exists (S a), x. rewrite H1, Nat.add_succ_r. auto.
Qed.

Lemma name_position_unique (ns : list Node) (i j : nat) (x y : Node) :
  NoDup (map n_name ns) ->
  nth_error ns i = Some x -> nth_error ns j = Some y ->
  n_name x = n_name y -> i = j.
Proof.
  intros Hnd Hi Hj Heq.
  apply (proj1 (NoDup_nth_error (map n_name ns)) Hnd).
  - rewrite length_map. apply nth_error_Some. congruence.
  - rewrite !nth_error_map, Hi, Hj. simpl. now rewrite Heq.
Qed.

(** *** Relationships *)

Lemma joins_pair (ab : nat * nat) (r : Rel) :
  joins ab r = true <-> pair_of r = ab.
Proof.
  unfold joins, pair_of. destruct ab as [a b]. simpl.
  rewrite andb_true_iff, !Nat.eqb_eq. split.
  - intros [-> ->]. reflexivity.
  - intros H. now inversion H.
Qed.

Lemma merge_rel_pairs (rel : string) (susp : Z) (db : Db) (ab : nat * nat) :
  NoDup (map pair_of (rels db)) ->
  NoDup (map pair_of (rels (merge_rel rel susp db ab))).
Proof.
  intros Hnd. unfold merge_rel.
  destruct (existsb (joins ab) (rels db)) eqn:E; cbn [rels].
  - rewrite map_map.
    erewrite map_ext; [exact Hnd|].
    intros r. now destruct (joins ab r).
  - rewrite map_app. cbn [map]. apply NoDup_snoc; [exact Hnd|].
    intros Hin. apply in_map_iff in Hin as [r [Hr Hin]].
    assert (existsb (joins ab) (rels db) = true).
    { apply existsb_exists. exists r. split; [exact Hin|].
      apply joins_pair. rewrite Hr. unfold pair_of. simpl.
      now destruct ab. }
    congruence.
Qed.

Lemma merge_rel_record (rel : string) (susp : Z) (db : Db) (ab : nat * nat) :
  NoDup (map pair_of (rels db)) ->
  filter (joins ab) (rels (merge_rel rel susp db ab))
  = [mkRel (fst ab) (snd ab) rel susp].
Proof.
  intros Hnd.
  assert (Hv : joins ab (mkRel (fst ab) (snd ab) rel susp) = true).
  { apply joins_pair. unfold pair_of. simpl. now destruct ab. }
  unfold merge_rel.
  destruct (existsb (joins ab) (rels db)) eqn:E; cbn [rels].
  - apply (filter_update_unique pair_of (joins ab)); auto.
    + intros x y Hx Hy. apply joins_pair in Hx, Hy. congruence.
    + intros x Hx. apply joins_pair in Hx. unfold pair_of in Hx.
      subst ab. reflexivity.
  - rewrite filter_app, (filter_none _ _ E). simpl. now rewrite Hv.
Qed.

Lemma records_between (ns : list Node) (a b : nat) (x y : Node)
  (rs : list Rel) :
  NoDup (map n_name ns) ->
  nth_error ns a = Some x -> nth_error ns b = Some y ->
  filter (between (n_name x) (n_name y)) (flat_map (record_of ns) rs)
  = flat_map (record_of ns) (filter (joins (a, b)) rs).
Proof.
  intros Hnd Ha Hb. induction rs as [|r rs IH]; [reflexivity|].
  cbn [flat_map filter]. rewrite filter_app, IH.
  unfold record_of at 1 3.
  destruct (nth_error ns (r_src r)) as [u|] eqn:Hu;
    [destruct (nth_error ns (r_dst r)) as [v|] eqn:Hv|].
  - assert (Hsame : between (n_name x) (n_name y)
                      (mkConnection (n_name u) (n_name v)
                         (r_relationship r) (r_suspicion r))
                    = joins (a, b) r).
    { unfold between, joins. simpl. f_equal; apply eq_true_iff_eq;
        rewrite String.eqb_eq, Nat.eqb_eq; split; intros H.
      - eapply name_position_unique; eauto.
      - subst a. congruence.
      - eapply name_position_unique; eauto.
      - subst b. congruence. }
    cbn [filter]. rewrite Hsame.
    destruct (joins (a, b) r); cbn [flat_map app]; [|reflexivity].
    unfold record_of at 1. now rewrite Hu, Hv.
  - destruct (joins (a, b) r); cbn [flat_map filter app]; [|reflexivity].
    unfold record_of at 1. now rewrite Hu, Hv.
  - destruct (joins (a, b) r); cbn [flat_map filter app]; [|reflexivity].
    unfold record_of at 1. now rewrite Hu.
Qed.

Lemma upsert_connection_row (f t rel : string) (susp : Z) (db : Db) :
  NoDup (map n_name (nodes db)) ->
  let db' := merge_node t (merge_node f db) in
  exists a b x y,
    upsert_connection f t rel susp db = merge_rel rel susp db' (a, b)
    /\ nth_error (nodes db') a = Some x /\ n_name x = f
    /\ nth_error (nodes db') b = Some y /\ n_name y = t
    /\ NoDup (map n_name (nodes db')).
Proof.
  intros Hnd db'.
  destruct (merge_node_names f db Hnd) as [Hnd1 Hex1].
  destruct (merge_node_names t (merge_node f db) Hnd1) as [Hnd2 Hex2].
  fold db' in Hnd2, Hex2.
  assert (Hexf : In f (map n_name (nodes db'))).
  { unfold db', merge_node at 1.
    destruct (existsb (has_name t) (nodes (merge_node f db))).
    - now apply has_name_In.
    - cbn [nodes]. rewrite map_app. apply in_or_app. left.
      now apply has_name_In. }
  apply has_name_In in Hex2.
  destruct (ids_from_single 0 f _ Hnd2 Hexf) as [a [x [Ha [Hx Hxn]]]].
  destruct (ids_from_single 0 t _ Hnd2 Hex2) as [b [y [Hb [Hy Hyn]]]].
  exists a, b, x, y. repeat split; auto.
  unfold upsert_connection. fold db'. unfold ids_of. rewrite Ha, Hb.
  reflexivity.
Qed.

Lemma merge_node_rels (name : string) (db : Db) :
  rels (merge_node name db) = rels db.
Proof. unfold merge_node. now destruct (existsb _ _). Qed.

Lemma merge_rel_nodes (rel : string) (susp : Z) (db : Db) (ab : nat * nat) :
  nodes (merge_rel rel susp db ab) = nodes db.
Proof. unfold merge_rel. now destruct (existsb _ _). Qed.

Lemma unique_keys_pairs (db : Db) :
  unique_keys db -> NoDup (map pair_of (rels db)).
Proof. intros [_ H]. exact H. Qed.

Lemma upsert_connection_keys (f t rel : string) (susp : Z) (db : Db) :
  unique_keys db -> unique_keys (upsert_connection f t rel susp db).
Proof.
  intros [Hn Hp].
  destruct (upsert_connection_row f t rel susp db Hn)
    as [a [b [x [y [E [_ [_ [_ [_ Hnd]]]]]]]]].
  rewrite E. split.
  - now rewrite merge_rel_nodes.
  - apply merge_rel_pairs. unfold pair_of. now rewrite !merge_node_rels.
Qed.

Lemma upsert_connection_record (f t rel : string) (susp : Z) (db : Db) :
  unique_keys db ->
  filter (between f t) (match_connections (upsert_connection f t rel susp db))
  = [mkConnection f t rel susp].
Proof.
  intros [Hn Hp].
  destruct (upsert_connection_row f t rel susp db Hn)
    as [a [b [x [y [E [Ha [Hx [Hb [Hy Hnd]]]]]]]]].
  rewrite E. unfold match_connections. rewrite merge_rel_nodes.
  subst f t.
  rewrite (records_between _ a b x y _ Hnd Ha Hb).
  rewrite merge_rel_record.
  - cbn [flat_map fst snd]. unfold record_of. cbn [r_src r_dst].
    rewrite Ha, Hb. reflexivity.
  - unfold pair_of. now rewrite !merge_node_rels.
Qed.

Lemma upsert_entity_keys (name topic : string) (round : Z) (db : Db) :
  unique_keys db -> unique_keys (upsert_entity name topic round db).
Proof.
  intros [Hn Hp]. split.
  - now apply upsert_entity_names.
  - unfold upsert_entity, set_entity. cbn [rels]. now rewrite merge_node_rels.
Qed.

(** The two uniqueness properties hold after [clear] and are kept by every
    method, so they hold throughout a run of the agent. *)
Lemma unique_keys_cleared (self : ConspiracyGraph) (db : Db) :
  serving self db ->
  serving (after Clear self) (mkDb [] []) /\ unique_keys (mkDb [] []).
Proof.
  intros [Hav Hdr]. destruct self as [av dr]; simpl in *; subst.
  repeat split; constructor.
Qed.

Lemma unique_keys_kept (self : ConspiracyGraph) (db db' : Db) (c : call) :
  serving self db -> unique_keys db -> serving (after c self) db' ->
  unique_keys db'.
Proof.
  intros [Hav Hdr] Hk [_ Hdr']. destruct self as [av dr]; simpl in *; subst.
  destruct c; cbn in Hdr'; inversion Hdr'; subst; auto.
  - split; constructor.
  - now apply upsert_entity_keys.
  - now apply upsert_connection_keys.
Qed.

Lemma upserts_keep_serving (calls : list call) (self : ConspiracyGraph)
  (db : Db) :
  forallb is_upsert calls = true -> serving self db -> unique_keys db ->
  exists db', serving (after_all calls self) db' /\ unique_keys db'.
Proof.
  revert self db. induction calls as [|c calls IH]; intros self db Hup Hs Hk.
  - exists db. now split.
  - cbn [forallb] in Hup. apply andb_true_iff in Hup as [Hc Hup].
    cbn [after_all fold_left]. fold (after_all calls (after c self)).
    destruct Hs as [Hav Hdr]. destruct self as [av dr]; simpl in *; subst.
    destruct c; try discriminate; cbn.
    + eapply IH; [exact Hup | split; reflexivity |].
      now apply upsert_entity_keys.
    + eapply IH; [exact Hup | split; reflexivity |].
      now apply upsert_connection_keys.
Qed.

(** During a run the store is cleared and then only upserted into: the
    database has unique names and pairs at every point. *)
Lemma unique_keys_in_run (calls : list call) (self : ConspiracyGraph)
  (db : Db) :
  forallb is_upsert calls = true -> serving self db ->
  exists db', serving (after_all (Clear :: calls) self) db' /\ unique_keys db'.
Proof.
  intros Hup Hs. destruct (unique_keys_cleared self db Hs) as [Hs0 Hk0].
  cbn [after_all fold_left]. fold (after_all calls (after Clear self)).
  now apply (upserts_keep_serving calls _ (mkDb [] [])).
Qed.

(** MERGE binds every node of the name: on a database that already holds
    two nodes of one name, both are updated and both remain. *)
Lemma merge_binds_every_match :
  entities_named "Area 51"
    (snd (add_entity "Area 51" "Bigfoot" 2%Z
            (mkGraph true
               (Some (mkDriver (mkDb [mkNode "Area 51" None None;
                                      mkNode "Area 51" None None] [])
                        true)))))
  = Ok [mkEntity "Area 51" (Some "Bigfoot") (Some 2%Z);
        mkEntity "Area 51" (Some "Bigfoot") (Some 2%Z)].
Proof. reflexivity. Qed.



(** *** Concrete stores *)





End GraphStore.

(** ** The extraction input *)

Section ExtractionInput.

Import Search Extractor Agent.

Lemma text_blob_take (search_results : list SearchResult) :
  text_blob search_results = take 3000 (join nl (map content search_results)).
Proof.
  unfold text_blob.
  destruct (3000 <? _)%nat eqn:E; [reflexivity|].
  symmetry. apply take_all. now apply Nat.ltb_ge.
Qed.

Lemma search_round_results (sv : Services) (round_num : Z)
  (topic_a topic_b last_insight previous_context : string) :
  fst (search_round sv round_num topic_a topic_b last_insight previous_context)
  = all_results (fst (search_topic (tavily sv) topic_a 5))
      (fst (search_topic (tavily sv) topic_b 5)) previous_context
      (fst (connection_search sv round_num topic_a topic_b last_insight)).
Proof.
  unfold search_round.
  destruct (connection_search _ _ _ _ _), (search_topic _ topic_a 5),
    (search_topic _ topic_b 5). reflexivity.
Qed.

(** C4, as it holds.  In every round the requests sent to the language
    model for extraction are: none when the text is blank, and otherwise
    one request whose prompt embeds exactly the first 3000 characters of
    the newline-joined contents of, in order, the topic-A results, the
    topic-B results, the Previous Findings pseudo-result (when the prior
    context is not empty) and the connection results. *)
Theorem extraction_text_of_round (sv : Services) (round_num : Z)
  (topic_a topic_b last_insight previous_context : string) :
  let text :=
    take 3000
      (join nl
         (map content (fst (search_topic (tavily sv) topic_a 5))
          ++ map content (fst (search_topic (tavily sv) topic_b 5))
          ++ (if truthy previous_context then [previous_context] else [])
          ++ map content
               (fst (connection_search sv round_num topic_a topic_b
                       last_insight)))%list) in
  snd (extract_entities_and_connections (chat sv) (json_loads sv)
         topic_a topic_b
         (fst (search_round sv round_num topic_a topic_b last_insight
                 previous_context)))
  = (if truthy (strip text)
     then [extraction_request topic_a topic_b text] else [])
  /\ user_content (extraction_request topic_a topic_b text)
     = prompt_head topic_a topic_b ++ text ++ prompt_tail.
Proof.
  intros text. split; [|reflexivity].
  rewrite search_round_results.
  unfold extract_entities_and_connections.
  assert (E : text_blob
                (all_results (fst (search_topic (tavily sv) topic_a 5))
                   (fst (search_topic (tavily sv) topic_b 5)) previous_context
                   (fst (connection_search sv round_num topic_a topic_b
                           last_insight))) = text).
  { rewrite text_blob_take. unfold text, all_results.
    rewrite !map_app, <- app_assoc.
    now destruct (truthy previous_context). }
  rewrite E. now destruct (truthy (strip text)).
Qed.

(** In round 1 the connection results are those of the one connection
    search. *)
Lemma connection_search_first_round (sv : Services)
  (topic_a topic_b last_insight : string) :
  connection_search sv 1 topic_a topic_b last_insight
  = search_connections (tavily sv) topic_a topic_b.
Proof. reflexivity. Qed.

(** C4, as stated, fails: with one result "A" for topic A, one result "B"
    for topic B, the context "P" and no connection result, the code's text
    is A, B, P on three lines; it is neither the concatenation nor the
    newline join in the claimed order, nor the plain concatenation in the
    code's order. *)
Lemma extraction_text_order_differs :
  let a := [mkResult "a" "u" "A"] in
  let b := [mkResult "b" "v" "B"] in
  text_blob (all_results a b "P" []) <> claimed_extraction_text a b "P" []
  /\ text_blob (all_results a b "P" [])
     <> take 3000 (join nl (map content (claimed_order a b "P" [])))
  /\ text_blob (all_results a b "P" [])
     <> take 3000 (String.concat EmptyString
                     (map content (all_results a b "P" []))).
Proof. cbn. repeat split; discriminate. Qed.

End ExtractionInput.

(** ** The extractor *)

Section ExtractorFacts.

Import Search Extractor.

Variable chat : Request -> result (option string).
Variable json_loads : string -> result json.

(** Rewrite with what the services answered, then run the code. *)
Ltac by_service_answer :=
  intros;
  repeat match goal with
         | H : chat _ = _ |- _ =>
             rewrite H; clear H; cbn -[firstn strip strip_open strip_close]
         | H : json_loads _ = _ |- _ =>
             rewrite H; clear H; cbn -[firstn strip strip_open strip_close]
         end;
  try reflexivity; try discriminate.

(** C5.  Extraction is total and its result always has the four keys: on a
    blank text it is the fallback and no request is sent; when the call to
    the model raises, sends no content, or sends text that does not parse
    or is not a JSON object, it is the fallback; when the text parses to an
    object, each missing key gets its default (an empty list, or the
    canned insight). *)
Theorem extraction_never_fails (topic_a topic_b : string)
  (search_results : list SearchResult) :
  let text := text_blob search_results in
  let request := extraction_request topic_a topic_b text in
  let out :=
    extract_entities_and_connections chat json_loads topic_a topic_b
      search_results in
  (truthy (strip text) = false -> out = (fallback, []))
  /\ (truthy (strip text) = true -> snd out = [request])
  /\ (forall e, chat request = Raise e -> fst out = fallback)
  /\ (chat request = Ok None -> fst out = fallback)
  /\ (forall c e, chat request = Ok (Some c) ->
        json_loads (strip_close (strip_open (strip c))) = Raise e ->
        fst out = fallback)
  /\ (forall c items, chat request = Ok (Some c) ->
        json_loads (strip_close (strip_open (strip c))) = Ok (JList items) ->
        fst out = fallback)
  /\ (forall c, chat request = Ok (Some c) ->
        json_loads (strip_close (strip_open (strip c))) = Ok JScalar ->
        fst out = fallback)
  /\ (forall c d, truthy (strip text) = true -> chat request = Ok (Some c) ->
        json_loads (strip_close (strip_open (strip c))) = Ok (JDict d) ->
        fst out
        = mkExtraction (get (p_entities_a d) []) (get (p_entities_b d) [])
            (get (p_connections d) [])
            (get (p_insight d) "No connections found yet..."))
  /\ (fst out = fallback
      \/ exists d,
           fst out
           = mkExtraction (get (p_entities_a d) []) (get (p_entities_b d) [])
               (get (p_connections d) [])
               (get (p_insight d) "No connections found yet...")).
Proof.
  intros text request out. subst out.
  unfold extract_entities_and_connections. fold text. fold request.
  destruct (truthy (strip text)) eqn:Ht; cbn [negb fst snd].
  2: { repeat split; intros; try reflexivity; try discriminate. now left. }
  repeat (split; [by_service_answer|]).
  destruct (chat request) as [[c|]|e]; cbn; try (now left).
  destruct (json_loads (strip_close (strip_open (strip c))))
    as [[d|items|]|e]; cbn; try (now left).
  right. now exists d.
Qed.

(** C6.  [get_deeper_search_queries] returns at most 3 strings; when the
    call raises, sends no content, or sends text that is not a non-empty
    JSON array once stripped of blanks and code fences, it returns the
    three template queries built from the two topics; otherwise it returns
    the first three elements of the array. *)
Theorem deeper_queries_bounded (topic_a topic_b previous_insight : string) :
  let request := queries_request topic_a topic_b previous_insight in
  let out :=
    get_deeper_search_queries chat json_loads topic_a topic_b
      previous_insight in
  (List.length out <= 3)%nat
  /\ (forall e, chat request = Raise e -> out = fallback_queries topic_a topic_b)
  /\ (chat request = Ok None -> out = fallback_queries topic_a topic_b)
  /\ (forall c, chat request = Ok (Some c) ->
        nonempty_array (json_loads (strip_close (strip_open (strip c)))) = false ->
        out = fallback_queries topic_a topic_b)
  /\ (forall c q qs, chat request = Ok (Some c) ->
        json_loads (strip_close (strip_open (strip c))) = Ok (JList (q :: qs)) ->
        out = firstn 3 (q :: qs))
  /\ fallback_queries topic_a topic_b
     = [ topic_a ++ " secret connections";
         topic_b ++ " hidden links";
         topic_a ++ " " ++ topic_b ++ " conspiracy" ].
Proof.
  intros request out. subst out.
  unfold get_deeper_search_queries. fold request.
  split.
  { destruct (chat request) as [[c|]|e]; cbn -[firstn]; try (simpl; lia).
    destruct (json_loads (strip_close (strip_open (strip c))))
      as [[d|[|q qs]|]|e]; cbn -[firstn]; try (simpl; lia).
    rewrite length_map. apply firstn_le_length. }
  repeat (split; [by_service_answer|]); try reflexivity.
  - destruct (json_loads (strip_close (strip_open (strip c))))
      as [[d|[|q qs]|]|e]; cbn in *; try reflexivity; discriminate.
  - unfold str. now rewrite map_id.
Qed.

End ExtractorFacts.

(** ** The knowledge-store query *)

Section SensoFacts.

Import Senso.

Variable env : option string.
Variable post : string -> string -> result SearchData.

Lemma chunk_texts_filter (results : list Chunk) :
  map (fun r => Search.get (chunk_text r) EmptyString) (filter has_text results)
  = chunk_texts results.
Proof.
  induction results as [|r rs IH]; [reflexivity|].
  unfold chunk_texts in *. cbn [filter flat_map]. unfold has_text at 1.
  destruct (chunk_text r) as [t|] eqn:E; [destruct (truthy t)|];
    cbn [map app]; rewrite ?E; cbn; now rewrite IH.
Qed.

Lemma truthy_empty (s : string) : truthy s = false <-> s = EmptyString.
Proof. destruct s; simpl; split; intros H; congruence. Qed.

(** C9.  [query_findings] returns at most 500 characters; it returns the
    empty string when the API key is not set or set to the empty string
    and when the request fails; when the service answers, it returns the
    first 500 characters of the answer, unless the answer is missing,
    empty or the no-results sentinel, and then the first 500 characters of
    the non-empty chunk texts joined by single spaces. *)
Theorem query_findings_bounded (topic_a topic_b : string) :
  let out := query_findings env post topic_a topic_b in
  let query := search_query topic_a topic_b in
  (String.length out <= 500)%nat
  /\ (env = None \/ env = Some EmptyString -> out = EmptyString)
  /\ (forall key e, _get_api_key env = Some key ->
        post key query = Raise e -> out = EmptyString)
  /\ (forall key data a, _get_api_key env = Some key ->
        post key query = Ok data ->
        answer data = Some a -> a <> EmptyString -> a <> no_results ->
        out = take 500 a)
  /\ (forall key data, _get_api_key env = Some key ->
        post key query = Ok data ->
        answer data = None \/ answer data = Some EmptyString
        \/ answer data = Some no_results ->
        out = take 500 (join " " (chunk_texts (Search.get (results data) [])))).
Proof.
  intros out query. subst out. unfold query_findings. fold query.
  split; [|split; [|split; [|split]]].
  - destruct (_get_api_key env) as [key|]; [|simpl; lia].
    destruct (post key query) as [data|e]; cbn -[take]; [|lia].
    destruct (_ && _); cbn -[take]; apply take_length_le.
  - intros [-> | ->]; reflexivity.
  - intros key e -> ->. reflexivity.
  - intros key data a -> -> Ha Hne Hns. cbn -[take]. rewrite Ha. cbn -[take].
    destruct (truthy a) eqn:Ht.
    + destruct (a =? no_results) eqn:En; [|reflexivity].
      apply String.eqb_eq in En. contradiction.
    + apply truthy_empty in Ht. contradiction.
  - intros key data -> -> Ha. cbn -[take].
    rewrite chunk_texts_filter.
    destruct Ha as [-> | [-> | ->]]; reflexivity.
Qed.

End SensoFacts.

(** ** The images of a round *)

Section Images.

Import Agent.

Lemma filter_filter_comm {A} (p q : A -> bool) (l : list A) :
  filter p (filter q l) = filter q (filter p l).
Proof.
  induction l as [|x l IH]; simpl; [reflexivity|].
  destruct (p x) eqn:P, (q x) eqn:Q; simpl; rewrite ?P, ?Q, IH; reflexivity.
Qed.

Lemma filter_fuse {A} (p q : A -> bool) (l : list A) :
  filter p (filter q l) = filter (fun y => q y && p y) l.
Proof.
  induction l as [|x l IH]; simpl; [reflexivity|].
  destruct (q x) eqn:Q; simpl; [destruct (p x)|]; now rewrite IH.
Qed.

Lemma filter_absorbs (p : string -> bool) (x : string) (l : list string) :
  p x = false -> filter p (filter (differs x) l) = filter p l.
Proof.
  intros Hx. induction l as [|y l IH]; simpl; [reflexivity|].
  unfold differs at 1. destruct (y =? x) eqn:E; simpl.
  - apply String.eqb_eq in E. subst y. now rewrite Hx.
  - now rewrite IH.
Qed.

Lemma first_seen_filter (p : string -> bool) (l : list string) :
  first_seen (filter p l) = filter p (first_seen l).
Proof.
  induction l as [|x l IH]; [reflexivity|].
  cbn [filter first_seen]. fold (differs x).
  destruct (p x) eqn:Px.
  - cbn [first_seen]. fold (differs x).
    now rewrite IH, filter_filter_comm.
  - now rewrite IH, filter_absorbs.
Qed.

Lemma fromkeys_into_first_seen (keys l : list string) :
  fromkeys_into keys l = (keys ++ first_seen (filter (fresh keys) l))%list.
Proof.
  revert keys. induction l as [|x l IH]; intros keys.
  - simpl. now rewrite app_nil_r.
  - cbn [fromkeys_into filter]. unfold fresh at 1.
    destruct (existsb (String.eqb x) keys) eqn:E; cbn [negb].
    + apply IH.
    + rewrite IH, <- app_assoc. cbn [app first_seen]. fold (differs x).
      do 2 f_equal. rewrite <- first_seen_filter, filter_fuse.
      f_equal. apply filter_ext. intros y.
      unfold fresh, differs. rewrite existsb_app. cbn.
      now rewrite orb_false_r, negb_orb.
Qed.

Lemma fromkeys_first_seen (l : list string) : fromkeys l = first_seen l.
Proof.
  unfold fromkeys. rewrite fromkeys_into_first_seen. cbn [app]. f_equal.
  induction l as [|x l IH]; simpl; congruence.
Qed.

Lemma first_seen_In (l : list string) (u : string) :
  In u (first_seen l) <-> In u l.
Proof.
  induction l as [|x l IH]; [reflexivity|].
  cbn [first_seen]. simpl. rewrite filter_In, IH. unfold differs.
  destruct (String.eqb_spec u x) as [->|Hne]; [tauto|].
  split; [tauto|]. intros [H | H]; [now left | right; split; auto].
Qed.

Lemma first_seen_NoDup (l : list string) : NoDup (first_seen l).
Proof.
  induction l as [|x l IH]; cbn [first_seen]; constructor.
  - rewrite filter_In. unfold differs. intros [_ H].
    now rewrite String.eqb_refl in H.
  - now apply NoDup_filter.
Qed.

(** An element that was not seen before is appended; one that was seen
    changes nothing: the order is the order of first occurrences. *)
Lemma first_seen_snoc (l : list string) (x : string) :
  first_seen (l ++ [x])
  = if existsb (String.eqb x) l then first_seen l
    else (first_seen l ++ [x])%list.
Proof.
  induction l as [|y l IH]; [reflexivity|].
  cbn [app first_seen existsb]. rewrite IH.
  destruct (String.eqb_spec x y) as [->|Hne]; cbn [orb].
  - destruct (existsb (String.eqb y) l); [reflexivity|].
    rewrite filter_app. cbn. unfold differs at 2.
    rewrite String.eqb_refl. cbn. now rewrite app_nil_r.
  - destruct (existsb (String.eqb x) l); [reflexivity|].
    rewrite filter_app. cbn. unfold differs at 2.
    destruct (String.eqb_spec x y); [contradiction|reflexivity].
Qed.

Lemma search_topic_images (client : Search.Client) (topic : string)
  (max_results : nat) :
  (List.length (snd (Search.search_topic client topic max_results)) <= 3)%nat.
Proof.
  unfold Search.search_topic. destruct client as [search|]; [|simpl; lia].
  destruct (search topic max_results) as [response|e]; [|simpl; lia].
  cbn [snd]. apply firstn_le_length.
Qed.

(** C8.  The URLs handed to vision analysis are the first two of the
    first-occurrence deduplication of the round's image list; every search
    call yields at most three image URLs; and the events of the step are
    exactly one [image_clue] for each analysed URL whose clue is not empty
    (when a callback is given). *)
Theorem image_selection (sv : Services) (on_event : bool) (round_num : Z)
  (topic_a topic_b : string) (round_images : list string) :
  let analysed :=
    fst (analyze_images sv on_event round_num topic_a topic_b round_images) in
  let emitted :=
    snd (analyze_images sv on_event round_num topic_a topic_b round_images) in
  let clue u := Vision.analyze_image (reka sv) u topic_a topic_b in
  analysed = firstn 2 (first_seen round_images)
  /\ NoDup (first_seen round_images)
  /\ (forall u, In u (first_seen round_images) <-> In u round_images)
  /\ (forall x, first_seen (round_images ++ [x])
                = if existsb (String.eqb x) round_images
                  then first_seen round_images
                  else (first_seen round_images ++ [x])%list)
  /\ (List.length analysed <= 2)%nat
  /\ (forall client topic max_results,
        (List.length (snd (Search.search_topic client topic max_results)) <= 3)%nat)
  /\ (forall e, In e emitted ->
        exists u, In u analysed /\ truthy (clue u) = true
                  /\ e = image_clue u (clue u) round_num)
  /\ (forall u, on_event = true -> In u analysed -> truthy (clue u) = true ->
        In (image_clue u (clue u) round_num) emitted).
Proof.
  intros analysed emitted clue.
  assert (Ha : analysed = firstn 2 (first_seen round_images)).
  { unfold analysed, analyze_images, unique_images. cbn [fst].
    now rewrite fromkeys_first_seen. }
  repeat split.
  - exact Ha.
  - apply first_seen_NoDup.
  - apply first_seen_In.
  - apply first_seen_In.
  - apply first_seen_snoc.
  - rewrite Ha. apply firstn_le_length.
  - apply search_topic_images.
  - intros e He. unfold emitted, analyze_images in He. cbn [snd] in He.
    apply in_flat_map in He as [u [Hu He]]. exists u.
    unfold image_step in He. fold (clue u) in He.
    destruct (truthy (clue u)) eqn:Ht; [|destruct He].
    unfold _emit in He. destruct on_event; [|destruct He].
    destruct He as [<- | []]. auto.
  - intros u Hon Hu Ht. unfold emitted, analyze_images. cbn [snd].
    apply in_flat_map. exists u. split; [exact Hu|].
    unfold image_step. fold (clue u). rewrite Ht, Hon. now left.
Qed.

End Images.

(** ** The completion summary *)

Section Summary.

Import Graph Agent.

Lemma insert_by_suspicion_perm (c : Connection) (l : list Connection) :
  Permutation (insert_by_suspicion c l) (c :: l).
Proof.
  induction l as [|x l IH]; simpl; [reflexivity|].
  destruct (c_suspicion c <? c_suspicion x)%Z; [|reflexivity].
  rewrite IH. apply perm_swap.
Qed.

Lemma sorted_by_suspicion_perm (conns : list Connection) :
  Permutation (sorted_by_suspicion conns) conns.
Proof.
  induction conns as [|c l IH]; simpl; [constructor|].
  rewrite insert_by_suspicion_perm. now constructor.
Qed.









Lemma summary_event (on_event : bool) (st : Run) :
  match summary on_event st with
  | (Ok _, st') =>
      exists total conns,
        fst (get_entity_count (graph st)) = Ok total
        /\ fst (get_connections (graph st)) = Ok conns
        /\ events st'
           = (events st
              ++ _emit on_event
                   (complete total (List.length conns)
                      (top_connections_of conns)))%list
  | (Raise _, st') => events st' = events st
  end.
Proof.
  destruct st as [[av [[db on]|]] evs]; destruct av; try destruct on;
    cbn; try reflexivity; eauto.
Qed.


End Summary.

(** ** Connection dicts with missing keys *)

Section MissingKeys.

Import Graph Extractor Agent.

Lemma settled_init (gd : option (result Driver)) : settled (__init__ gd).
Proof.
  destruct gd as [[[db [|]]|e]|]; cbn; try (now left).
  right. now exists db.
Qed.

(** On a settled store no method raises, and the store stays settled. *)
Lemma settled_clear (g : ConspiracyGraph) :
  settled g -> exists g', clear g = (Ok tt, g') /\ settled g'.
Proof.
  intros [-> | [db ->]]; cbn; eexists; split; try reflexivity.
  - now left.
  - right. eauto.
Qed.

Lemma settled_add_entity (name topic : string) (round_num : Z)
  (g : ConspiracyGraph) :
  settled g ->
  exists g', add_entity name topic round_num g = (Ok tt, g') /\ settled g'.
Proof.
  intros [-> | [db ->]]; cbn; eexists; split; try reflexivity.
  - now left.
  - right. eauto.
Qed.

Lemma settled_add_connection (f t r : string) (s : Z) (g : ConspiracyGraph) :
  settled g ->
  exists g', add_connection f t r s g = (Ok tt, g') /\ settled g'.
Proof.
  intros [-> | [db ->]]; cbn; eexists; split; try reflexivity.
  - now left.
  - right. eauto.
Qed.

Lemma settled_get_entity_count (g : ConspiracyGraph) :
  settled g ->
  exists n g', get_entity_count g = (Ok n, g') /\ settled g'.
Proof.
  intros [-> | [db ->]]; cbn; do 2 eexists; split; try reflexivity.
  - now left.
  - right. eauto.
Qed.

Lemma for_each_settled {A} (body : A -> method unit) (l : list A)
  (g : ConspiracyGraph) :
  (forall x g0, settled g0 ->
     exists g1, body x g0 = (Ok tt, g1) /\ settled g1) ->
  settled g ->
  exists g', for_each body l g = (Ok tt, g') /\ settled g'.
Proof.
  intros Hbody. revert g. induction l as [|x l IH]; intros g Hg.
  - exists g. now split.
  - destruct (Hbody x g Hg) as [g1 [E1 Hg1]].
    destruct (IH g1 Hg1) as [g2 [E2 Hg2]].
    exists g2. cbn [for_each]. unfold then_. now rewrite E1.
Qed.

Lemma connection_args_missing (conn : ConnDict) (k : string) :
  first_missing_key conn = Some k ->
  connection_args conn = Raise (KeyError k)
  /\ In k ["from"; "to"; "relationship"].
Proof.
  unfold first_missing_key, connection_args.
  destruct (conn_from conn), (conn_to conn), (conn_relationship conn);
    cbn; intros H; inversion H; subst; cbn; auto.
Qed.

Lemma connection_args_present (conn : ConnDict) :
  first_missing_key conn = None ->
  exists f t r,
    conn_from conn = Some f /\ conn_to conn = Some t
    /\ conn_relationship conn = Some r
    /\ connection_args conn
       = Ok (f, t, r, match conn_suspicion_level conn with
                      | Some s => s
                      | None => 5%Z
                      end).
Proof.
  unfold first_missing_key, connection_args.
  destruct (conn_from conn) as [f|], (conn_to conn) as [t|],
    (conn_relationship conn) as [r|]; cbn; intros H; try discriminate.
  exists f, t, r. auto.
Qed.

Lemma store_connections (conns : list ConnDict) (g : ConspiracyGraph) :
  settled g ->
  if existsb lacks_required_key conns
  then exists k g', for_each store_connection conns g = (Raise (KeyError k), g')
                    /\ In k ["from"; "to"; "relationship"]
  else exists g', for_each store_connection conns g = (Ok tt, g')
                  /\ settled g'.
Proof.
  revert g. induction conns as [|conn conns IH]; intros g Hg.
  - cbn. exists g. now split.
  - cbn [existsb for_each]. unfold then_, lacks_required_key at 1.
    destruct (first_missing_key conn) as [k|] eqn:Hk.
    + destruct (connection_args_missing conn k Hk) as [E Hin].
      assert (Es : store_connection conn g = (Raise (KeyError k), g))
        by (unfold store_connection; now rewrite E).
      rewrite Es. cbn. now exists k, g.
    + destruct (connection_args_present conn Hk) as [f [t [r [_ [_ [_ E]]]]]].
      destruct (settled_add_connection f t r
                  (match conn_suspicion_level conn with
                   | Some s => s | None => 5%Z end) g Hg) as [g1 [E1 Hg1]].
      assert (Es : store_connection conn g = (Ok tt, g1))
        by (unfold store_connection; now rewrite E).
      rewrite Es. cbn [orb]. apply IH. exact Hg1.
Qed.

Lemma store_in_graph_outcome (topic_a topic_b : string) (round_num : Z)
  (extracted : Extraction) (g : ConspiracyGraph) :
  settled g ->
  if existsb lacks_required_key (connections extracted)
  then exists k g',
         store_in_graph topic_a topic_b round_num extracted g
         = (Raise (KeyError k), g')
         /\ In k ["from"; "to"; "relationship"]
  else exists n g',
         store_in_graph topic_a topic_b round_num extracted g = (Ok n, g')
         /\ settled g'.
Proof.
  intros Hg. unfold store_in_graph.
  destruct (for_each_settled
              (fun entity => add_entity entity topic_a round_num)
              (entities_a extracted) g) as [g1 [E1 Hg1]]; auto.
  { intros x g0. apply settled_add_entity. }
  destruct (for_each_settled
              (fun entity => add_entity entity topic_b round_num)
              (entities_b extracted) g1) as [g2 [E2 Hg2]]; auto.
  { intros x g0. apply settled_add_entity. }
  pose proof (store_connections (connections extracted) g2 Hg2) as Hc.
  destruct (existsb lacks_required_key (connections extracted)).
  - destruct Hc as [k [g' [E Hin]]]. exists k, g'. split; [|exact Hin].
    unfold then_. now rewrite E1, E2, E.
  - destruct Hc as [g' [E Hg']].
    destruct (settled_get_entity_count g' Hg') as [n [g'' [En Hg'']]].
    exists n, g''. split; [|exact Hg''].
    unfold then_. now rewrite E1, E2, E.
Qed.

(** A round runs up to the graph step; it stops there when the step
    raises and goes on to its end otherwise. *)
Lemma round_steps (sv : Services) (on_event : bool)
  (topic_a topic_b : string) (rounds round_num : Z) (last_insight : string)
  (st : Run) :
  let extracted :=
    round_extraction sv topic_a topic_b round_num last_insight in
  exists pre,
    match store_in_graph topic_a topic_b round_num extracted (graph st) with
    | (Ok _, g') =>
        exists post,
          round sv on_event topic_a topic_b rounds round_num last_insight st
          = (Ok (insight extracted), mkRun g' post)
    | (Raise e, g') =>
        round sv on_event topic_a topic_b rounds round_num last_insight st
        = (Raise e,
           mkRun g' (pre ++ _emit on_event (extraction_complete extracted)))
    end.
Proof.
  intros extracted. unfold round.
  set (ctx := Senso.query_findings (senso_env sv) (senso_post sv)
                topic_a topic_b).
  assert (Ex : extracted
               = fst (extract_entities_and_connections (chat sv)
                        (json_loads sv) topic_a topic_b
                        (fst (search_round sv round_num topic_a topic_b
                                last_insight ctx)))) by reflexivity.
  destruct (search_round sv round_num topic_a topic_b last_insight ctx)
    as [results round_images].
  cbn [fst] in Ex. rewrite <- Ex.
  unfold seq, emit, emit_all, on_graph, ret. cbn [graph events].
  eexists.
  destruct (store_in_graph topic_a topic_b round_num extracted (graph st))
    as [[n|e] g']; [eexists|]; reflexivity.
Qed.

Lemma round_outcome (sv : Services) (on_event : bool)
  (topic_a topic_b : string) (rounds round_num : Z) (last_insight : string)
  (st : Run) :
  settled (graph st) ->
  let extracted :=
    round_extraction sv topic_a topic_b round_num last_insight in
  if existsb lacks_required_key (connections extracted)
  then exists k st' pre,
         round sv on_event topic_a topic_b rounds round_num last_insight st
         = (Raise (KeyError k), st')
         /\ In k ["from"; "to"; "relationship"]
         /\ events st'
            = (pre ++ _emit on_event (extraction_complete extracted))%list
  else exists st',
         round sv on_event topic_a topic_b rounds round_num last_insight st
         = (Ok (insight extracted), st')
         /\ settled (graph st').
Proof.
  intros Hg extracted.
  destruct (round_steps sv on_event topic_a topic_b rounds round_num
              last_insight st) as [pre Hr]. fold extracted in Hr.
  pose proof (store_in_graph_outcome topic_a topic_b round_num extracted
                (graph st) Hg) as Hs.
  destruct (existsb lacks_required_key (connections extracted)).
  - destruct Hs as [k [g' [E Hin]]]. rewrite E in Hr.
    eexists k, _, pre. split; [exact Hr|]. split; [exact Hin | reflexivity].
  - destruct Hs as [n [g' [E Hg']]]. rewrite E in Hr.
    destruct Hr as [post Hr]. eexists. split; [exact Hr | exact Hg'].
Qed.

Lemma rounds_loop_aborts (world : Z -> Services) (on_event : bool)
  (topic_a topic_b : string) (rounds : Z) (todo : nat) :
  forall (m n : nat) (st : Run),
    settled (graph st) ->
    (m < n <= m + todo)%nat ->
    existsb lacks_required_key
      (connections (extraction_of_round world topic_a topic_b n)) = true ->
    exists k st' n' pre,
      rounds_loop world on_event topic_a topic_b rounds todo
        (Z.of_nat (S m)) (insight_after world topic_a topic_b m) st
      = (Raise (KeyError k), st')
      /\ In k ["from"; "to"; "relationship"]
      /\ (n' <= n)%nat
      /\ existsb lacks_required_key
           (connections (extraction_of_round world topic_a topic_b n')) = true
      /\ events st'
         = (pre ++ _emit on_event
                     (extraction_complete
                        (extraction_of_round world topic_a topic_b n')))%list.
Proof.
  induction todo as [|todo IH]; intros m n st Hg Hn Hbad; [lia|].
  cbn [rounds_loop]. unfold seq at 1.
  pose proof (round_outcome (world (Z.of_nat (S m))) on_event topic_a topic_b
                rounds (Z.of_nat (S m))
                (insight_after world topic_a topic_b m) st Hg) as Hr.
  cbv zeta in Hr.
  change (round_extraction (world (Z.of_nat (S m))) topic_a topic_b
            (Z.of_nat (S m)) (insight_after world topic_a topic_b m))
    with (extraction_of_round world topic_a topic_b (S m)) in Hr.
  destruct (existsb lacks_required_key
              (connections (extraction_of_round world topic_a topic_b (S m))))
    eqn:Hhere.
  - destruct Hr as [k [st' [pre [E [Hin Hev]]]]]. rewrite E.
    exists k, st', (S m), pre. repeat split; auto. lia.
  - destruct Hr as [st' [E Hg']]. rewrite E.
    assert (Hne : n <> S m) by (intros ->; congruence).
    replace (Z.of_nat (S m) + 1)%Z with (Z.of_nat (S (S m))) by lia.
    change (insight (extraction_of_round world topic_a topic_b (S m)))
      with (insight_after world topic_a topic_b (S m)).
    apply (IH (S m) n st' Hg'); [lia | exact Hbad].
Qed.


End MissingKeys.

(** ** The definitions at work on the sample services *)

Section Runs.

Import Search Extractor Agent Samples.

Lemma extraction_never_fails_witness :
  extract_entities_and_connections chat_object loads "Moon Landing" "Bigfoot" []
  = (fallback, [])
  /\ fst (extract_entities_and_connections chat_down loads "Moon Landing"
            "Bigfoot" [apollo]) = fallback
  /\ fst (extract_entities_and_connections chat_array loads "Moon Landing"
            "Bigfoot" [apollo]) = fallback
  /\ fst (extract_entities_and_connections chat_object loads "Moon Landing"
            "Bigfoot" [apollo])
     = mkExtraction [] [] [nasa_hides] "They knew.".
Proof.
  split; [|split; [|split]].
  - apply (extraction_never_fails chat_object loads "Moon Landing" "Bigfoot" []).
    reflexivity.
  - apply (extraction_never_fails chat_down loads "Moon Landing" "Bigfoot"
             [apollo]) with (e := TransportError).
    reflexivity.
  - apply (extraction_never_fails chat_array loads "Moon Landing" "Bigfoot"
             [apollo]) with (c := fenced array_text)
                            (items := ["q1"; "q2"; "q3"; "q4"]);
      reflexivity.
  - apply (extraction_never_fails chat_object loads "Moon Landing" "Bigfoot"
             [apollo]) with
      (c := fenced object_text)
      (d := mkParsed None None (Some [nasa_hides]) (Some "They knew."));
      reflexivity.
Defined.

Lemma deeper_queries_bounded_witness :
  get_deeper_search_queries chat_down loads "Moon Landing" "Bigfoot" "They knew."
  = ["Moon Landing secret connections"; "Bigfoot hidden links";
     "Moon Landing Bigfoot conspiracy"]
  /\ get_deeper_search_queries chat_object loads "Moon Landing" "Bigfoot"
       "They knew."
     = fallback_queries "Moon Landing" "Bigfoot"
  /\ get_deeper_search_queries chat_array loads "Moon Landing" "Bigfoot"
       "They knew."
     = ["q1"; "q2"; "q3"].
Proof.
  split; [|split].
  - apply (deeper_queries_bounded chat_down loads "Moon Landing" "Bigfoot"
             "They knew.") with (e := TransportError).
    reflexivity.
  - apply (deeper_queries_bounded chat_object loads "Moon Landing" "Bigfoot"
             "They knew.") with (c := fenced object_text); reflexivity.
  - apply (deeper_queries_bounded chat_array loads "Moon Landing" "Bigfoot"
             "They knew.") with (c := fenced array_text) (q := "q1")
                                (qs := ["q2"; "q3"; "q4"]); reflexivity.
Defined.


(** The scenario of the specification: a connection of suspicion 9 and one
    of suspicion 3 are upserted; the completion event lists the first
    before the second. *)
Example completion_lists_nine_first :
  let store := Graph.mkGraph true (Some (Graph.mkDriver (Graph.mkDb [] []) true)) in
  let store := snd (Graph.add_connection "Bigfoot" "NASA" "was filmed by" 3%Z store) in
  let store := snd (Graph.add_connection "NASA" "Area 51" "hides" 9%Z store) in
  events (snd (summary true (mkRun store [])))
  = [complete 3%Z 2
       [mkTop "NASA" "Area 51" "hides"; mkTop "Bigfoot" "NASA" "was filmed by"]].
Proof. reflexivity. Qed.

Lemma image_selection_witness :
  fst (analyze_images (sample_world 1%Z) true 1%Z "Moon Landing" "Bigfoot"
         ["img/a"; "img/b"; "img/a"; "img/c"]) = ["img/a"; "img/b"]
  /\ In (image_clue "img/a" "The flag waves." 1%Z)
        (snd (analyze_images (sample_world 1%Z) true 1%Z "Moon Landing"
                "Bigfoot" ["img/a"; "img/b"; "img/a"; "img/c"])).
Proof.
  split.
  - apply (image_selection (sample_world 1%Z) true 1%Z "Moon Landing" "Bigfoot"
             ["img/a"; "img/b"; "img/a"; "img/c"]).
  - apply (image_selection (sample_world 1%Z) true 1%Z "Moon Landing" "Bigfoot"
             ["img/a"; "img/b"; "img/a"; "img/c"]) with (u := "img/a").
    + reflexivity.
    + simpl; auto.
    + reflexivity.
Defined.

Lemma query_findings_bounded_witness :
  Senso.query_findings (Some "key") senso_chunks "Moon Landing" "Bigfoot"
  = "Area 51 Roswell"
  /\ Senso.query_findings (Some EmptyString) senso_chunks "Moon Landing"
       "Bigfoot" = EmptyString.
Proof.
  split.
  - apply (query_findings_bounded (Some "key") senso_chunks "Moon Landing"
             "Bigfoot") with
      (key := "key")
      (data := Senso.mkData (Some Senso.no_results)
                 (Some [Senso.mkChunk (Some "Area 51"); Senso.mkChunk None;
                        Senso.mkChunk (Some EmptyString);
                        Senso.mkChunk (Some "Roswell")])).
    + reflexivity.
    + reflexivity.
    + right; right; reflexivity.
  - apply (query_findings_bounded (Some EmptyString) senso_chunks
             "Moon Landing" "Bigfoot").
    right; reflexivity.
Defined.


(** The run stops in round 1, in the graph step, on the missing key. *)
Example run_stops_on_missing_key :
  let out := run_agent (Some (Ok (Graph.mkDriver (Graph.mkDb [] []) true)))
               sample_world "Moon Landing" "Bigfoot" 2%Z true in
  fst out = Raise (KeyError "to")
  /\ map (fun e => match e with
                   | round_start _ _ => "round_start"
                   | senso_query _ _ => "senso_query"
                   | search_complete _ _ => "search_complete"
                   | extraction_complete _ => "extraction_complete"
                   | graph_update _ _ _ => "graph_update"
                   | image_clue _ _ _ => "image_clue"
                   | narration _ _ => "narration"
                   | complete _ _ _ => "complete"
                   end) (events (snd out))
     = ["round_start"; "senso_query"; "search_complete"; "extraction_complete"].
Proof. vm_compute. split; reflexivity. Qed.

End Runs.

(** ** The store after a history of calls *)

Section StoreHistory.

Import Graph History.



(** *** The names in the store *)








(** *** The record of one entity *)





Lemma statement_keys (c : call) (db : Db) :
  is_upsert c = true -> unique_keys db -> unique_keys (statement c db).
Proof.
  destruct c; try discriminate; intros _ Hk; cbn [statement].
  - now apply upsert_entity_keys.
  - now apply upsert_connection_keys.
Qed.




(** *** The record of one connection *)

Lemma record_of_grown (ns extra : list Node) (r : Rel) :
  (r_src r < List.length ns)%nat -> (r_dst r < List.length ns)%nat ->
  record_of (ns ++ extra) r = record_of ns r.
Proof.
  intros Hs Hd. unfold record_of. now rewrite !nth_error_app1.
Qed.

Lemma record_of_renewed (g : Node -> Node) (ns : list Node) (r : Rel) :
  (forall n, n_name (g n) = n_name n) ->
  record_of (map g ns) r = record_of ns r.
Proof.
  intros Hg. unfold record_of. rewrite !nth_error_map.
  destruct (nth_error ns (r_src r)) as [a|], (nth_error ns (r_dst r)) as [b|];
    cbn; try reflexivity.
  now rewrite !Hg.
Qed.

Lemma flat_map_same {A B} (f g : A -> list B) (l : list A) :
  Forall (fun x => f x = g x) l -> flat_map f l = flat_map g l.
Proof.
  induction 1 as [|x l Hx _ IH]; [reflexivity|].
  cbn [flat_map]. now rewrite Hx, IH.
Qed.

Lemma merge_node_connections (x : string) (db : Db) :
  in_range db -> match_connections (merge_node x db) = match_connections db.
Proof.
  intros Hr. unfold merge_node.
  destruct (existsb (has_name x) (nodes db)); [reflexivity|].
  unfold match_connections. cbn [nodes rels]. apply flat_map_same.
  eapply Forall_impl; [|exact Hr].
  intros r [Hs Hd]. now apply record_of_grown.
Qed.

Lemma merge_node_in_range (x : string) (db : Db) :
  in_range db -> in_range (merge_node x db).
Proof.
  intros Hr. unfold merge_node.
  destruct (existsb (has_name x) (nodes db)); [exact Hr|].
  unfold in_range in *. cbn [nodes rels]. eapply Forall_impl; [|exact Hr].
  intros r [Hs Hd]. rewrite length_app. cbn. lia.
Qed.

Lemma set_entity_connections (n topic : string) (round : Z) (db : Db) :
  match_connections (set_entity n topic round db) = match_connections db.
Proof.
  unfold match_connections. cbn [set_entity nodes rels].
  apply flat_map_same, Forall_forall. intros r _.
  apply record_of_renewed. intros x. now destruct (has_name n x).
Qed.

Lemma upsert_entity_connections (n topic : string) (round : Z) (db : Db) :
  in_range db ->
  match_connections (upsert_entity n topic round db) = match_connections db.
Proof.
  intros Hr. unfold upsert_entity.
  now rewrite set_entity_connections, merge_node_connections.
Qed.

Lemma upsert_entity_in_range (n topic : string) (round : Z) (db : Db) :
  in_range db -> in_range (upsert_entity n topic round db).
Proof.
  intros Hr. apply (merge_node_in_range n) in Hr.
  unfold upsert_entity, in_range in *. cbn [set_entity nodes rels].
  now rewrite length_map.
Qed.

Lemma merge_rel_in_range (rel : string) (susp : Z) (db : Db) (a b : nat) :
  (a < List.length (nodes db))%nat -> (b < List.length (nodes db))%nat ->
  in_range db -> in_range (merge_rel rel susp db (a, b)).
Proof.
  intros Ha Hb Hr. unfold merge_rel, in_range in *.
  destruct (existsb (joins (a, b)) (rels db)); cbn [nodes rels].
  - apply Forall_map. eapply Forall_impl; [|exact Hr].
    intros r Hin. now destruct (joins (a, b) r).
  - apply Forall_app. split; [exact Hr|]. repeat constructor; assumption.
Qed.

Lemma upsert_connection_in_range (f t rel : string) (susp : Z) (db : Db) :
  unique_keys db -> in_range db ->
  in_range (upsert_connection f t rel susp db).
Proof.
  intros [Hn _] Hr.
  destruct (upsert_connection_row f t rel susp db Hn)
    as [a [b [x [y [E [Ha [_ [Hb [_ _]]]]]]]]].
  rewrite E. apply merge_rel_in_range.
  - apply nth_error_Some. congruence.
  - apply nth_error_Some. congruence.
  - now apply merge_node_in_range, merge_node_in_range.
Qed.

Lemma merge_rel_other_pair (f t rel : string) (susp : Z) (ns : list Node)
  (rs : list Rel) (a b : nat) (x y : Node) :
  nth_error ns a = Some x -> nth_error ns b = Some y ->
  (n_name x =? f) && (n_name y =? t) = false ->
  filter (between f t)
    (flat_map (record_of ns) (rels (merge_rel rel susp (mkDb ns rs) (a, b))))
  = filter (between f t) (flat_map (record_of ns) rs).
Proof.
  intros Ha Hb Hne.
  assert (Hout : forall w s,
             filter (between f t) (record_of ns (mkRel a b w s)) = []).
  { intros w s. unfold record_of. cbn [r_src r_dst]. rewrite Ha, Hb.
    cbn. unfold between. cbn. now rewrite Hne. }
  unfold merge_rel. cbn [nodes rels].
  destruct (existsb (joins (a, b)) rs); cbn [rels].
  - induction rs as [|r rs IH]; [reflexivity|].
    cbn [map flat_map]. rewrite !filter_app, IH. f_equal.
    destruct (joins (a, b) r) eqn:J; [|reflexivity].
    apply joins_pair in J. unfold pair_of in J. inversion J; subst.
    rewrite Hout. destruct r as [sr ds w s]. cbn [r_src r_dst].
    now rewrite Hout.
  - rewrite flat_map_app, filter_app. cbn [flat_map].
    rewrite app_nil_r. cbn [fst snd]. rewrite Hout. now rewrite app_nil_r.
Qed.

Lemma statement_in_range (c : call) (db : Db) :
  is_upsert c = true -> unique_keys db -> in_range db ->
  in_range (statement c db).
Proof.
  destruct c; try discriminate; intros _ Hk Hr; cbn [statement].
  - now apply upsert_entity_in_range.
  - now apply upsert_connection_in_range.
Qed.

Lemma statement_link (f t : string) (c : call) (db : Db)
  (acc : option Connection) :
  is_upsert c = true -> unique_keys db -> in_range db ->
  holds_link f t db acc ->
  holds_link f t (statement c db) (link_step f t acc c).
Proof.
  destruct c as [|n tp r|f' t' rel s| | | |]; try discriminate;
    intros _ Hk Hr H; cbn [statement link_step]; unfold holds_link in *.
  - now rewrite upsert_entity_connections.
  - destruct ((f' =? f) && (t' =? t)) eqn:E.
    + apply andb_true_iff in E as [Ef Et].
      apply String.eqb_eq in Ef, Et. subst f' t'.
      now rewrite upsert_connection_record.
    + destruct Hk as [Hn Hp].
      destruct (upsert_connection_row f' t' rel s db Hn)
        as [a [b [x [y [Eq [Ha [Hx [Hb [Hy _]]]]]]]]].
      rewrite Eq. unfold match_connections at 1. rewrite merge_rel_nodes.
      set (db' := merge_node t' (merge_node f' db)) in *.
      assert (Hrs : rels db' = rels db)
        by (unfold db'; now rewrite !merge_node_rels).
      replace (merge_rel rel s db' (a, b))
        with (merge_rel rel s (mkDb (nodes db') (rels db)) (a, b))
        by (rewrite <- Hrs; now destruct db').
      rewrite (merge_rel_other_pair f t rel s (nodes db') (rels db) a b x y
                 Ha Hb) by (now rewrite Hx, Hy).
      rewrite <- Hrs. fold (match_connections db'). unfold db'.
      rewrite !merge_node_connections;
        [exact H | exact Hr | now apply merge_node_in_range].
Qed.

Lemma statements_link (f t : string) (calls : list call) (db : Db)
  (acc : option Connection) :
  forallb is_upsert calls = true -> unique_keys db -> in_range db ->
  holds_link f t db acc ->
  holds_link f t (statements calls db) (fold_left (link_step f t) calls acc)
  /\ in_range (statements calls db).
Proof.
  revert db acc. induction calls as [|c calls IH]; intros db acc Hup Hk Hr H;
    [now split|].
  cbn [forallb] in Hup. apply andb_true_iff in Hup as [Hc Hup].
  cbn [statements fold_left]. fold (statements calls (statement c db)).
  apply IH; [exact Hup | now apply statement_keys
             | now apply statement_in_range | now apply statement_link].
Qed.



(** X4.  On a connected store whose relationships join existing nodes (as
    after [clear] and any upserts), [add_entity] leaves the list returned
    by [get_connections] as it was. *)
Theorem add_entity_keeps_connections (name topic : string) (round_num : Z)
  (self : ConspiracyGraph) (db : Db) :
  serving self db -> in_range db ->
  fst (get_connections (snd (add_entity name topic round_num self)))
  = fst (get_connections self).
Proof.
  intros Hs Hr. rewrite (add_entity_serving self db _ _ _ Hs).
  destruct Hs as [Hav Hdr]. destruct self as [av dr]; simpl in *; subst.
  cbn. f_equal. now apply upsert_entity_connections.
Qed.

(** The relationships join existing nodes throughout a run. *)
Lemma in_range_in_run (calls : list call) :
  forallb is_upsert calls = true -> in_range (statements calls (mkDb [] [])).
Proof.
  intros Hup.
  apply (statements_link EmptyString EmptyString calls (mkDb [] []) None Hup).
  - split; constructor.
  - constructor.
  - reflexivity.
Qed.

End StoreHistory.

(** ** Clearing and closing the store *)

Section StoreLifecycle.

Import Graph.

(** X5.  Whenever [clear] returns normally the store reads as empty right
    after it: the entity count is 0 and the entity and connection lists are
    empty, whatever the database held before. *)
Theorem clear_empties_store (self : ConspiracyGraph) :
  fst (clear self) = Ok tt ->
  let cleared := snd (clear self) in
  get_entity_count cleared = (Ok 0%Z, cleared)
  /\ get_all_entities cleared = (Ok [], cleared)
  /\ get_connections cleared = (Ok [], cleared).
Proof.
  destruct self as [[|] [[db [|]]|]]; cbn; intros H; try discriminate;
    repeat split; reflexivity.
Qed.

Lemma clear_empties_store_witness :
  let self :=
    mkGraph true
      (Some (mkDriver (mkDb [mkNode "NASA" None None;
                             mkNode "Area 51" (Some "UFOs") (Some 1%Z)]
                        [mkRel 0 1 "hides" 9%Z]) true)) in
  let cleared := snd (clear self) in
  get_entity_count cleared = (Ok 0%Z, cleared)
  /\ get_all_entities cleared = (Ok [], cleared)
  /\ get_connections cleared = (Ok [], cleared).
Proof.
  intros self. apply (clear_empties_store self). reflexivity.
Defined.



End StoreLifecycle.

(** ** Blanks and code fences *)

Section Stripping.

Lemma rstrip_cons (c : ascii) (s : string) :
  rstrip (String c s)
  = match rstrip s with
    | EmptyString => if is_space c then EmptyString else String c EmptyString
    | r => String c r
    end.
Proof. reflexivity. Qed.

Lemma rstrip_empty (s : string) :
  rstrip s = EmptyString <-> blank s = true.
Proof.
  unfold blank. induction s as [|c s IH]; [now split|].
  rewrite rstrip_cons. cbn [list_ascii_of_string forallb].
  rewrite andb_true_iff, <- IH.
  destruct (rstrip s) eqn:E; destruct (is_space c); split;
    try discriminate; intuition (try discriminate; auto).
Qed.

Lemma lstrip_blank (s : string) : blank (lstrip s) = blank s.
Proof.
  unfold blank. induction s as [|c s IH]; [reflexivity|].
  cbn [lstrip]. destruct (is_space c) eqn:E; [|reflexivity].
  cbn [list_ascii_of_string forallb]. now rewrite E.
Qed.

Lemma strip_empty (s : string) : strip s = EmptyString <-> blank s = true.
Proof. unfold strip. now rewrite rstrip_empty, lstrip_blank. Qed.

Lemma rstrip_fixed (s : string) : rstrip (rstrip s) = rstrip s.
Proof.
  induction s as [|c s IH]; [reflexivity|].
  rewrite rstrip_cons. destruct (rstrip s) as [|d r] eqn:E.
  - destruct (is_space c) eqn:Ec; [reflexivity|].
    rewrite rstrip_cons. cbn [rstrip]. now rewrite Ec.
  - rewrite rstrip_cons, IH. reflexivity.
Qed.

Lemma lstrip_solid (s : string) : starts_solid s = true -> lstrip s = s.
Proof.
  destruct s as [|c s]; [reflexivity|]. cbn.
  now destruct (is_space c).
Qed.

Lemma lstrip_starts_solid (s : string) : starts_solid (lstrip s) = true.
Proof.
  induction s as [|c s IH]; [reflexivity|].
  cbn [lstrip]. destruct (is_space c) eqn:E; [exact IH|].
  cbn. now rewrite E.
Qed.

Lemma rstrip_starts_solid (s : string) :
  starts_solid s = true -> starts_solid (rstrip s) = true.
Proof.
  destruct s as [|c s]; [reflexivity|]. rewrite rstrip_cons.
  cbn [starts_solid]. intros Hc. destruct (rstrip s); [|exact Hc].
  destruct (is_space c) eqn:E; [reflexivity|]. cbn. now rewrite E.
Qed.

Lemma strip_fixed (s : string) : strip (strip s) = strip s.
Proof.
  unfold strip.
  rewrite (lstrip_solid (rstrip (lstrip s))).
  - apply rstrip_fixed.
  - apply rstrip_starts_solid, lstrip_starts_solid.
Qed.

Lemma length_app_string (a b : string) :
  String.length (a ++ b) = (String.length a + String.length b)%nat.
Proof. induction a as [|c a IH]; simpl; [reflexivity | now rewrite IH]. Qed.

Lemma app_empty_r (a : string) : a ++ EmptyString = a.
Proof. induction a as [|c a IH]; simpl; [reflexivity | now rewrite IH]. Qed.

Lemma app_assoc_string (a b c : string) : (a ++ b) ++ c = a ++ b ++ c.
Proof. induction a as [|x a IH]; simpl; [reflexivity | now rewrite IH]. Qed.

Lemma blank_app (a b : string) : blank (a ++ b) = blank a && blank b.
Proof.
  unfold blank. induction a as [|c a IH]; [reflexivity|].
  cbn [append list_ascii_of_string forallb]. now rewrite IH, andb_assoc.
Qed.

Lemma blank_take (n : nat) (s : string) : blank s = true -> blank (take n s) = true.
Proof.
  unfold blank. revert s. induction n as [|n IH]; intros [|c s]; cbn;
    try reflexivity.
  intros H. apply andb_true_iff in H as [Hc H]. rewrite Hc. now apply IH.
Qed.

Lemma blank_join (parts : list string) :
  Forall (fun p => blank p = true) parts -> blank (join nl parts) = true.
Proof.
  induction 1 as [|p parts Hp _ IH]; [reflexivity|].
  destruct parts as [|q parts]; [exact Hp|].
  change (join nl (p :: q :: parts)) with (p ++ nl ++ join nl (q :: parts)).
  now rewrite !blank_app, Hp, IH.
Qed.

Lemma drop_prefix_length (p s rest : string) :
  drop_prefix p s = Some rest ->
  String.length s = (String.length p + String.length rest)%nat.
Proof.
  revert s. induction p as [|a p IH]; intros [|b s]; cbn; intros H;
    try discriminate; try (now inversion H).
  destruct (Ascii.eqb a b); [|discriminate]. now rewrite (IH s H).
Qed.

Lemma drop_prefix_app (p s : string) : drop_prefix p (p ++ s) = Some s.
Proof.
  induction p as [|a p IH]; [now destruct s|].
  cbn. now rewrite Ascii.eqb_refl.
Qed.

Lemma strip_close_eq (s : string) :
  strip_close s
  = match closing s with
    | Some rest => rest
    | None => match s with
              | String c s' => String c (strip_close s')
              | EmptyString => EmptyString
              end
    end.
Proof. destruct s; reflexivity. Qed.

(** A string that is not all blanks keeps a solid character in front of
    whatever follows it. *)
Lemma lstrip_app_solid (b tail : string) :
  blank b = false ->
  exists c r, lstrip (b ++ tail) = String c (r ++ tail).
Proof.
  unfold blank. induction b as [|c b IH]; [discriminate|].
  cbn [list_ascii_of_string forallb append lstrip].
  destruct (is_space c); cbn [andb]; intros H; [now apply IH|].
  now exists c, b.
Qed.

Lemma closing_inside (b : string) :
  blank b = false -> closing (b ++ nl ++ fence) = None.
Proof.
  intros Hb. unfold closing.
  destruct (lstrip_app_solid b (nl ++ fence) Hb) as [c [r E]]. rewrite E.
  destruct (drop_prefix fence (String c (r ++ nl ++ fence))) as [rest|] eqn:D;
    [|reflexivity].
  apply drop_prefix_length in D. cbn [String.length] in D.
  rewrite length_app_string in D. cbn in D.
  destruct rest as [|x [|y rest]]; cbn in D; try lia.
  replace (String x (String y rest) =? nl) with false;
    [reflexivity|].
  symmetry. apply String.eqb_neq. unfold nl. discriminate.
Qed.

Lemma solid_suffix (b1 b2 : string) :
  rstrip (b1 ++ b2) = b1 ++ b2 -> b2 <> EmptyString -> blank b2 = false.
Proof.
  induction b1 as [|c b1 IH]; cbn [append]; intros H Hne.
  - destruct (blank b2) eqn:E; [|reflexivity].
    apply rstrip_empty in E. congruence.
  - rewrite rstrip_cons in H. destruct (rstrip (b1 ++ b2)) as [|d r] eqn:E.
    + destruct (is_space c); [discriminate|]. inversion H as [H0].
      destruct b1; cbn in H0; [congruence | discriminate].
    + apply IH; [|exact Hne]. inversion H as [H0]. now rewrite H0.
Qed.

Lemma strip_close_body (b1 b2 : string) :
  rstrip (b1 ++ b2) = b1 ++ b2 ->
  strip_close (b2 ++ nl ++ fence) = b2.
Proof.
  revert b1. induction b2 as [|c b2 IH]; intros b1 H; [reflexivity|].
  rewrite strip_close_eq.
  rewrite (closing_inside (String c b2))
    by (apply (solid_suffix b1); [exact H | discriminate]).
  cbn [append]. f_equal. apply (IH (b1 ++ String c EmptyString)).
  now rewrite app_assoc_string.
Qed.

Lemma strip_starts_solid (s : string) : strip s = s -> starts_solid s = true.
Proof.
  intros H. rewrite <- H. unfold strip.
  apply rstrip_starts_solid, lstrip_starts_solid.
Qed.

Lemma strip_rstrip (s : string) : strip s = s -> rstrip s = s.
Proof. intros H. rewrite <- H at 1. unfold strip. rewrite rstrip_fixed. exact H. Qed.

Lemma rstrip_keeps (s t : string) :
  rstrip t = t -> t <> EmptyString -> rstrip (s ++ t) = s ++ t.
Proof.
  intros Ht Hne. induction s as [|c s IH]; [exact Ht|].
  cbn [append]. rewrite rstrip_cons, IH.
  destruct (s ++ t) eqn:E; [|reflexivity].
  destruct s; cbn in E; [congruence | discriminate].
Qed.

(** X7.  Unwrapping undoes wrapping: for a text without leading or
    trailing blanks, the content made of an opening fence (with or without
    the [json] tag), a newline, the text, a newline and a closing fence is
    handed to [json.loads] as the text itself, also when blanks surround
    the content. *)
Theorem unfenced_fenced (body before after : string) (tagged : bool) :
  strip body = body -> blank before = true -> blank after = true ->
  let tag := if tagged then "json" else EmptyString in
  Extractor.unfenced
    (Some (before ++ (fence ++ tag ++ nl ++ body ++ nl ++ fence) ++ after))
  = Ok body.
Proof.
  intros Hbody Hbefore Hafter tag.
  unfold Extractor.unfenced, Extractor.content_strip. cbn [bind]. f_equal.
  set (wrapped := fence ++ tag ++ nl ++ body ++ nl ++ fence).
  assert (Hstrip : strip (before ++ wrapped ++ after) = wrapped).
  { unfold strip.
    assert (Hl : forall b x, blank b = true -> lstrip (b ++ x) = lstrip x).
    { unfold blank. induction b as [|c b IH]; intros x; [reflexivity|].
      cbn [list_ascii_of_string forallb append lstrip]. intros H.
      apply andb_true_iff in H as [Hc H]. rewrite Hc. now apply IH. }
    rewrite (Hl before _ Hbefore).
    assert (Hw : lstrip (wrapped ++ after) = wrapped ++ after) by reflexivity.
    rewrite Hw.
    assert (Hr : forall x a, rstrip x = x -> x <> EmptyString ->
                             blank a = true -> rstrip (x ++ a) = x).
    { intros x a Hx Hne Ha. induction x as [|c x IH].
      - congruence.
      - cbn [append]. rewrite rstrip_cons.
        destruct x as [|d x].
        + cbn [append]. apply rstrip_empty in Ha. rewrite Ha.
          rewrite rstrip_cons in Hx. cbn [rstrip] in Hx.
          destruct (is_space c); [discriminate | reflexivity].
        + rewrite rstrip_cons in Hx.
          destruct (rstrip (String d x)) as [|e r] eqn:E.
          * destruct (is_space c); discriminate.
          * injection Hx as He Hx0. subst e r.
            rewrite IH; [reflexivity | reflexivity | discriminate]. }
    apply Hr; [| unfold wrapped, fence; discriminate | exact Hafter].
    unfold wrapped. rewrite <- !app_assoc_string.
    apply rstrip_keeps; [reflexivity | discriminate]. }
  rewrite Hstrip.
  assert (Hopen : strip_open wrapped = lstrip (body ++ nl ++ fence)).
  { unfold wrapped, strip_open. rewrite drop_prefix_app.
    destruct tagged; reflexivity. }
  rewrite Hopen.
  destruct body as [|c body]; [reflexivity|].
  rewrite lstrip_solid.
  - apply (strip_close_body EmptyString). now apply strip_rstrip.
  - apply strip_starts_solid in Hbody. exact Hbody.
Qed.

Lemma unfenced_fenced_witness :
  Extractor.unfenced
    (Some ((" " ++ nl)
           ++ (fence ++ "json" ++ nl ++ "{ }" ++ nl ++ fence) ++ nl))
  = Ok "{ }".
Proof.
  apply (unfenced_fenced "{ }" (" " ++ nl) nl true); reflexivity.
Defined.

Lemma no_backtick_lstrip (s : string) :
  no_backtick s = true -> no_backtick (lstrip s) = true.
Proof.
  unfold no_backtick. induction s as [|c s IH]; [reflexivity|].
  cbn [lstrip]. destruct (is_space c); [|auto].
  cbn [list_ascii_of_string forallb]. intros H.
  apply andb_true_iff in H as [_ H]. now apply IH.
Qed.

Lemma no_backtick_rstrip (s : string) :
  no_backtick s = true -> no_backtick (rstrip s) = true.
Proof.
  unfold no_backtick. induction s as [|c s IH]; [reflexivity|].
  rewrite rstrip_cons. cbn [list_ascii_of_string forallb]. intros H.
  apply andb_true_iff in H as [Hc H]. specialize (IH H).
  destruct (rstrip s).
  - destruct (is_space c); [reflexivity|]. cbn. now rewrite Hc.
  - cbn [list_ascii_of_string forallb] in *. now rewrite Hc, IH.
Qed.

Lemma no_backtick_no_fence (s : string) :
  no_backtick s = true -> drop_prefix fence s = None.
Proof.
  unfold no_backtick. destruct s as [|c s]; [reflexivity|].
  cbn [list_ascii_of_string forallb]. intros H.
  apply andb_true_iff in H as [Hc _]. unfold fence. cbn [drop_prefix].
  rewrite Ascii.eqb_sym. now destruct (Ascii.eqb c "`"%char).
Qed.

Lemma strip_close_plain (s : string) :
  no_backtick s = true -> strip_close s = s.
Proof.
  induction s as [|c s IH]; intros H; [reflexivity|].
  rewrite strip_close_eq. unfold closing.
  rewrite (no_backtick_no_fence _ (no_backtick_lstrip _ H)).
  f_equal. apply IH. unfold no_backtick in *.
  cbn [list_ascii_of_string forallb] in H.
  now apply andb_true_iff in H as [_ H].
Qed.

(** X8.  A content without any backtick reaches [json.loads] as the
    content stripped of its surrounding blanks: the two substitutions
    change nothing. *)
Theorem unfenced_plain (content : string) :
  no_backtick content = true ->
  Extractor.unfenced (Some content) = Ok (strip content).
Proof.
  intros H. unfold Extractor.unfenced, Extractor.content_strip. cbn [bind].
  assert (Hs : no_backtick (strip content) = true)
    by (unfold strip; now apply no_backtick_rstrip, no_backtick_lstrip).
  unfold strip_open. rewrite (no_backtick_no_fence _ Hs).
  now rewrite strip_close_plain.
Qed.

Lemma unfenced_plain_witness :
  Extractor.unfenced (Some (" [1, 2] " ++ nl)) = Ok "[1, 2]".
Proof. apply (unfenced_plain (" [1, 2] " ++ nl)). reflexivity. Defined.

End Stripping.

(** ** Search results, blank inputs and the inputs of a round *)

Section RoundInputs.

Import Search Extractor Agent Limits.

Lemma _truncate_take (text : string) (max_len : nat) :
  _truncate text max_len = take max_len text.
Proof.
  unfold _truncate. destruct text as [|c text]; [now destruct max_len|].
  cbn [truthy negb].
  destruct (max_len <? String.length (String c text))%nat eqn:E;
    [reflexivity|].
  symmetry. apply take_all. now apply Nat.ltb_ge.
Qed.

Lemma search_topic_short (client : Client) (topic : string)
  (max_results : nat) :
  Forall (fun r => (String.length (content r) <= 500)%nat)
    (fst (search_topic client topic max_results)).
Proof.
  unfold search_topic. destruct client as [search|]; [|constructor].
  destruct (search topic max_results) as [[resp|]|e]; cbn [fst];
    try constructor.
  apply Forall_forall. intros r Hr. apply in_map_iff in Hr as [raw [<- _]].
  cbn [content]. rewrite _truncate_take. apply take_length_le.
Qed.

(** X9.  [search_topic] never raises: without a client, when the search
    raises or when its answer is not a dict it returns no result and no
    image; otherwise it returns one result per raw result, in order, with
    missing keys replaced by the empty string and the content cut to its
    first 500 characters, and the first three image URLs.  In every case
    each content has at most 500 characters. *)
Theorem search_topic_results (client : Client) (topic : string)
  (max_results : nat) :
  let out := search_topic client topic max_results in
  Forall (fun r => (String.length (content r) <= 500)%nat) (fst out)
  /\ (forall search resp,
        client = Some search -> search topic max_results = Ok (Some resp) ->
        fst out
        = map (fun r => mkResult (get (raw_title r) EmptyString)
                          (get (raw_url r) EmptyString)
                          (take 500 (get (raw_content r) EmptyString)))
            (get (results resp) [])
        /\ snd out = firstn 3 (get (images resp) []))
  /\ (forall search,
        client = Some search ->
        search topic max_results = Ok None
        \/ (exists e, search topic max_results = Raise e) ->
        out = ([], []))
  /\ (client = None -> out = ([], [])).
Proof.
  intros out. subst out. unfold search_topic.
  split; [|split; [|split]].
  - apply search_topic_short.
  - intros search resp -> ->. cbn [fst snd]. split; [|reflexivity].
    apply map_ext. intros r. now rewrite _truncate_take.
  - intros search -> [-> | [e ->]]; reflexivity.
  - intros ->. reflexivity.
Qed.

Lemma search_topic_results_witness :
  search_topic Samples.tavily_apollo "Moon Landing" 5
  = ([Samples.apollo], ["img/a"; "img/b"; "img/a"]).
Proof.
  pose proof (search_topic_results Samples.tavily_apollo "Moon Landing" 5)
    as (_ & H & _).
  destruct (H (fun _ _ =>
                 Ok (Some (mkResponse
                             (Some [mkRaw (Some "Apollo 11")
                                      (Some "https://example.org/apollo")
                                      (Some "Apollo footage")])
                             (Some ["img/a"; "img/b"; "img/a"; "img/c"]))))
              (mkResponse
                 (Some [mkRaw (Some "Apollo 11")
                          (Some "https://example.org/apollo")
                          (Some "Apollo footage")])
                 (Some ["img/a"; "img/b"; "img/a"; "img/c"]))
              eq_refl eq_refl) as [H1 H2].
  destruct (search_topic Samples.tavily_apollo "Moon Landing" 5) as [rs imgs].
  cbn [fst snd] in H1, H2. now rewrite H1, H2.
Defined.

(** X10.  When the content of every search result is blank (or there is
    no result at all), extraction returns the fallback and sends nothing to
    the language model. *)
Theorem blank_results_skip_model (chat : Request -> result (option string))
  (json_loads : string -> result json) (topic_a topic_b : string)
  (search_results : list SearchResult) :
  Forall (fun r => blank (content r) = true) search_results ->
  extract_entities_and_connections chat json_loads topic_a topic_b
    search_results = (fallback, []).
Proof.
  intros Hb. unfold extract_entities_and_connections.
  assert (Ht : strip (text_blob search_results) = EmptyString).
  { apply strip_empty. rewrite text_blob_take. apply blank_take, blank_join.
    apply Forall_map. exact Hb. }
  now rewrite Ht.
Qed.

Lemma blank_results_skip_model_witness :
  extract_entities_and_connections Samples.chat_object Samples.loads
    "Moon Landing" "Bigfoot"
    [mkResult "a" "u" "  "; mkResult "b" "v" nl; mkResult "c" "w" EmptyString]
  = (fallback, []).
Proof.
  apply (blank_results_skip_model Samples.chat_object Samples.loads).
  repeat constructor.
Defined.

(** X11.  The clue kept for an image has no surrounding blanks; an image
    whose analysis is unavailable, fails or answers only blanks yields no
    event, and any other answer yields one [image_clue] event carrying the
    stripped answer (when a callback is given). *)
Theorem blank_clue_is_dropped (sv : Services) (on_event : bool)
  (round_num : Z) (topic_a topic_b image_url : string) :
  let clue := Vision.analyze_image (reka sv) image_url topic_a topic_b in
  let step := image_step sv on_event round_num topic_a topic_b image_url in
  strip clue = clue
  /\ (reka sv = None -> step = [])
  /\ (forall create e,
        reka sv = Some create ->
        create image_url (Vision.vision_prompt topic_a topic_b) = Raise e ->
        step = [])
  /\ (forall create answer,
        reka sv = Some create ->
        create image_url (Vision.vision_prompt topic_a topic_b) = Ok answer ->
        step = if blank answer then []
               else _emit on_event
                      (image_clue image_url (strip answer) round_num)).
Proof.
  intros clue step. subst clue step. unfold image_step, Vision.analyze_image.
  split; [|split; [|split]].
  - destruct (reka sv) as [create|]; [|reflexivity].
    destruct (create image_url (Vision.vision_prompt topic_a topic_b));
      cbn; [apply strip_fixed | reflexivity].
  - intros ->. reflexivity.
  - intros create e -> ->. reflexivity.
  - intros create answer -> ->. cbn.
    destruct (blank answer) eqn:B.
    + apply strip_empty in B. now rewrite B.
    + destruct (strip answer) eqn:E; [|reflexivity].
      apply strip_empty in E. congruence.
Qed.

Lemma blank_clue_is_dropped_witness :
  image_step (Samples.sample_world 1%Z) true 1%Z "Moon Landing" "Bigfoot"
    "img/b" = []
  /\ image_step (Samples.sample_world 1%Z) true 1%Z "Moon Landing" "Bigfoot"
       "img/a" = [image_clue "img/a" "The flag waves." 1%Z].
Proof.
  split.
  - pose proof (blank_clue_is_dropped (Samples.sample_world 1%Z) true 1%Z
                  "Moon Landing" "Bigfoot" "img/b") as (_ & _ & _ & H).
    exact (H _ EmptyString eq_refl eq_refl).
  - pose proof (blank_clue_is_dropped (Samples.sample_world 1%Z) true 1%Z
                  "Moon Landing" "Bigfoot" "img/a") as (_ & _ & _ & H).
    exact (H _ " The flag waves. " eq_refl eq_refl).
Defined.

Lemma query_findings_short (env : option string)
  (post : string -> string -> result Senso.SearchData)
  (topic_a topic_b : string) :
  (String.length (Senso.query_findings env post topic_a topic_b) <= 500)%nat.
Proof.
  unfold Senso.query_findings.
  destruct (Senso._get_api_key env) as [key|]; [|simpl; lia].
  destruct (post key _) as [data|e]; cbn -[take]; [|lia].
  destruct (_ && _); cbn -[take]; apply take_length_le.
Qed.

Lemma deeper_queries_short (chat : Request -> result (option string))
  (json_loads : string -> result json)
  (topic_a topic_b previous_insight : string) :
  (1 <= List.length (get_deeper_search_queries chat json_loads topic_a topic_b
                       previous_insight) <= 3)%nat.
Proof.
  unfold get_deeper_search_queries, unfenced, content_strip.
  destruct (chat _) as [[c|]|e]; cbn -[firstn]; try (simpl; lia).
  destruct (json_loads _) as [[d|[|q qs]|]|e]; cbn -[firstn];
    try (simpl; lia).
  rewrite length_map. split; [simpl; lia | apply firstn_le_length].
Qed.

Lemma deeper_search_bound (client : Client) (queries : list string)
  (acc : list SearchResult * list string) :
  Forall (fun r => (String.length (content r) <= 500)%nat) (fst acc) ->
  let out := fold_left (deeper_search client) queries acc in
  Forall (fun r => (String.length (content r) <= 500)%nat) (fst out)
  /\ (List.length (snd out)
      <= List.length (snd acc) + 3 * List.length queries)%nat.
Proof.
  revert acc. induction queries as [|q queries IH]; intros acc Hacc.
  - cbn. split; [exact Hacc | lia].
  - cbn [fold_left].
    pose proof (search_topic_images client q 3) as Hi.
    pose proof (search_topic_short client q 3) as Hc.
    assert (Hd : deeper_search client acc q
                 = ((fst acc ++ fst (search_topic client q 3))%list,
                    (snd acc ++ snd (search_topic client q 3))%list)).
    { unfold deeper_search. now destruct (search_topic client q 3). }
    rewrite Hd.
    destruct (IH ((fst acc ++ fst (search_topic client q 3))%list,
                  (snd acc ++ snd (search_topic client q 3))%list))
      as [H1 H2].
    + cbn [fst]. apply Forall_app. now split.
    + split; [exact H1|]. cbn [snd] in H2. rewrite length_app in H2.
      cbn [List.length]. lia.
Qed.

(** X12.  In every round, with the prior context that [query_findings]
    returns, each result handed to extraction (the Previous Findings
    pseudo-result included) has a content of at most 500 characters, and
    the round gathers at most 9 image URLs in round 1 and at most 18 in
    any other round. *)
Theorem round_inputs_bounded (sv : Services) (round_num : Z)
  (topic_a topic_b last_insight : string) :
  let previous_context :=
    Senso.query_findings (senso_env sv) (senso_post sv) topic_a topic_b in
  let out :=
    search_round sv round_num topic_a topic_b last_insight previous_context in
  Forall (fun r => (String.length (content r) <= 500)%nat) (fst out)
  /\ (List.length (snd out) <= image_budget round_num)%nat.
Proof.
  intros ctx out. subst out. unfold search_round.
  assert (Hconn :
    Forall (fun r => (String.length (content r) <= 500)%nat)
      (fst (connection_search sv round_num topic_a topic_b last_insight))
    /\ (List.length
          (snd (connection_search sv round_num topic_a topic_b last_insight))
        + 6 <= image_budget round_num)%nat).
  { unfold connection_search, image_budget, search_connections.
    pose proof (search_topic_images (tavily sv)
                  (topic_a ++ " " ++ topic_b ++ " connection relationship") 3)
      as Hi.
    pose proof (search_topic_short (tavily sv)
                  (topic_a ++ " " ++ topic_b ++ " connection relationship") 3)
      as Hc.
    destruct (round_num =? 1)%Z; [split; [exact Hc | lia]|].
    pose proof (deeper_queries_short (chat sv) (json_loads sv) topic_a topic_b
                  last_insight) as Hq.
    destruct (deeper_search_bound (tavily sv)
                (get_deeper_search_queries (chat sv) (json_loads sv) topic_a
                   topic_b last_insight) _ Hc) as [H1 H2].
    split; [exact H1 | lia]. }
  destruct Hconn as [Hc Hi].
  pose proof (search_topic_images (tavily sv) topic_a 5) as Hia.
  pose proof (search_topic_images (tavily sv) topic_b 5) as Hib.
  pose proof (search_topic_short (tavily sv) topic_a 5) as Hca.
  pose proof (search_topic_short (tavily sv) topic_b 5) as Hcb.
  destruct (connection_search sv round_num topic_a topic_b last_insight)
    as [crs cimgs].
  destruct (search_topic (tavily sv) topic_a 5) as [ars aimgs].
  destruct (search_topic (tavily sv) topic_b 5) as [brs bimgs].
  cbn [fst snd] in *. split.
  - unfold all_results. repeat (apply Forall_app; split); auto.
    destruct (truthy ctx); constructor; [|constructor].
    cbn [content previous_findings]. apply query_findings_short.
  - rewrite !length_app. lia.
Qed.

End RoundInputs.

(** ** Narration *)

Section Narration.

Import Narrator.

Lemma collect_whole (stream : Stream) (chunks : list string) :
  breaks stream = false ->
  collect stream chunks = Ok (chunks ++ contents stream)%list.
Proof.
  revert chunks. induction stream as [|step stream IH]; intros chunks H.
  - cbn. now rewrite app_nil_r.
  - destruct step as [[text|]|e]; cbn in H; try discriminate;
      cbn [collect contents flat_map]; rewrite IH by exact H.
    + destruct (truthy text); [now rewrite <- app_assoc | reflexivity].
    + reflexivity.
Qed.

Lemma collect_broken (stream : Stream) (chunks : list string) :
  breaks stream = true -> exists e, collect stream chunks = Raise e.
Proof.
  revert chunks. induction stream as [|step stream IH]; intros chunks H;
    [discriminate|].
  destruct step as [delta|e]; [|now exists e].
  cbn in H. cbn [collect]. now apply IH.
Qed.

(** X13.  [generate_narration] never raises.  When the call raises, or any
    step of the stream raises (whatever was received before), it returns
    the canned text of the round; otherwise it returns the non-empty
    contents of the stream, concatenated in order and stripped, which is
    the empty string for a stream without content.  Every round number
    other than 1 and 2 (round 0 and negative numbers as well) uses the
    persona and the canned text of round 3. *)
Theorem narration_outcomes (client : Client) (round_num : Z)
  (topic_a topic_b insight : string) (connection_count : Z) :
  let request :=
    narration_request round_num topic_a topic_b insight connection_count in
  let out :=
    generate_narration client round_num topic_a topic_b insight
      connection_count in
  (forall e, client request = Raise e -> out = fallback round_num)
  /\ (forall stream, client request = Ok stream -> breaks stream = true ->
        out = fallback round_num)
  /\ (forall stream, client request = Ok stream -> breaks stream = false ->
        out = strip (String.concat EmptyString (contents stream))
        /\ strip out = out)
  /\ system_prompt round_num = system_prompt (bucket round_num)
  /\ fallback round_num = fallback (bucket round_num)
  /\ (round_num <> 1%Z -> round_num <> 2%Z -> bucket round_num = 3%Z).
Proof.
  intros request out. subst out. unfold generate_narration. fold request.
  assert (Hb : round_num <> 1%Z -> round_num <> 2%Z -> bucket round_num = 3%Z).
  { intros H1 H2. unfold bucket.
    destruct (Z.eqb_spec round_num 1); [contradiction|].
    destruct (Z.eqb_spec round_num 2); [contradiction|]. reflexivity. }
  assert (Hsame : system_prompt round_num = system_prompt (bucket round_num)
                  /\ fallback round_num = fallback (bucket round_num)).
  { destruct (Z.eq_dec round_num 1) as [->|H1]; [now split|].
    destruct (Z.eq_dec round_num 2) as [->|H2]; [now split|].
    rewrite (Hb H1 H2).
    destruct round_num as [|[[?|?|]|[?|?|]|]|?]; try (now split); congruence. }
  destruct Hsame as [Hs Hf].
  repeat split; auto.
  - intros e ->. reflexivity.
  - intros stream -> Hbr. cbn [bind].
    destruct (collect_broken stream [] Hbr) as [e ->]. reflexivity.
  - rewrite H. cbn [bind]. rewrite (collect_whole stream [] H0). reflexivity.
  - rewrite H. cbn [bind]. rewrite (collect_whole stream [] H0). cbn.
    apply strip_fixed.
Qed.

Lemma narration_outcomes_witness :
  generate_narration
    (fun _ => Ok [Ok (Some " They"); Ok None; Ok (Some EmptyString);
                  Ok (Some " knew. ")])
    7%Z "Moon Landing" "Bigfoot" "They knew." 4%Z = "They knew."
  /\ generate_narration
       (fun _ => Ok [Ok (Some "They"); Raise TransportError])
       7%Z "Moon Landing" "Bigfoot" "They knew." 4%Z
     = "THEY DON'T WANT YOU TO KNOW THIS."
  /\ generate_narration (fun _ => Ok [Ok None])
       1%Z "Moon Landing" "Bigfoot" "They knew." 4%Z = EmptyString.
Proof.
  split; [|split].
  - pose proof (narration_outcomes
                  (fun _ => Ok [Ok (Some " They"); Ok None;
                                Ok (Some EmptyString); Ok (Some " knew. ")])
                  7%Z "Moon Landing" "Bigfoot" "They knew." 4%Z) as H.
    cbv zeta in H. destruct H as (_ & _ & H & _).
    exact (proj1 (H _ eq_refl eq_refl)).
  - pose proof (narration_outcomes
                  (fun _ => Ok [Ok (Some "They"); Raise TransportError])
                  7%Z "Moon Landing" "Bigfoot" "They knew." 4%Z) as H.
    cbv zeta in H. destruct H as (_ & H & _).
    exact (H _ eq_refl eq_refl).
  - pose proof (narration_outcomes (fun _ => Ok [Ok None])
                  1%Z "Moon Landing" "Bigfoot" "They knew." 4%Z) as H.
    cbv zeta in H. destruct H as (_ & _ & H & _).
    exact (proj1 (H _ eq_refl eq_refl)).
Defined.

End Narration.

(** ** The events of a run *)

Section RunProtocol.

Import Graph Extractor Agent Protocol.

(** What a round does, step by step, given how the graph step ends. *)
Lemma round_run (sv : Services) (on_event : bool) (topic_a topic_b : string)
  (rounds round_num : Z) (last_insight : string) (st : Run) :
  let ctx :=
    Senso.query_findings (senso_env sv) (senso_post sv) topic_a topic_b in
  let found := search_round sv round_num topic_a topic_b last_insight ctx in
  let extracted :=
    round_extraction sv topic_a topic_b round_num last_insight in
  let before :=
    ((((events st ++ _emit on_event (round_start round_num rounds))
       ++ _emit on_event
            (senso_query (truthy ctx)
               (if truthy ctx then String.length ctx else 0%nat)))
      ++ _emit on_event (search_complete (List.length (fst found)) round_num))
     ++ _emit on_event (extraction_complete extracted))%list in
  round sv on_event topic_a topic_b rounds round_num last_insight st
  = match store_in_graph topic_a topic_b round_num extracted (graph st) with
    | (Ok n, g') =>
        (Ok (insight extracted),
         mkRun g'
           (((before
              ++ _emit on_event
                   (graph_update
                      (map (fun e => (e, topic_a)) (entities_a extracted)
                       ++ map (fun e => (e, topic_b)) (entities_b extracted))
                      (connections extracted) n))
             ++ snd (analyze_images sv on_event round_num topic_a topic_b
                       (snd found)))
            ++ _emit on_event
                 (narration
                    (generate_narration sv round_num topic_a topic_b
                       (insight extracted) n) round_num))%list)
    | (Raise e, g') => (Raise e, mkRun g' before)
    end.
Proof.
  intros ctx found extracted before.
  unfold round. fold ctx.
  assert (Ex : extracted
               = fst (extract_entities_and_connections (chat sv)
                        (json_loads sv) topic_a topic_b (fst found)))
    by reflexivity.
  subst before. unfold found in *. clear found.
  destruct (search_round sv round_num topic_a topic_b last_insight ctx)
    as [results round_images].
  cbn [fst snd] in *. rewrite <- Ex.
  unfold seq, emit, emit_all, on_graph, ret. cbn [graph events].
  destruct (store_in_graph topic_a topic_b round_num extracted (graph st))
    as [[n|e] g']; reflexivity.
Qed.

Lemma Forall_emit (P : Event -> Prop) (on_event : bool) (e : Event) :
  P e -> Forall P (_emit on_event e).
Proof. intros H. unfold _emit. destruct on_event; repeat constructor; auto. Qed.

Lemma image_step_cases (sv : Services) (on_event : bool) (round_num : Z)
  (topic_a topic_b u : string) :
  image_step sv on_event round_num topic_a topic_b u = []
  \/ exists clue,
       image_step sv on_event round_num topic_a topic_b u
       = [image_clue u clue round_num].
Proof.
  unfold image_step, _emit.
  destruct (truthy _), on_event; auto. right. eauto.
Qed.

Lemma image_events (sv : Services) (on_event : bool) (round_num : Z)
  (topic_a topic_b : string) (urls : list string) :
  let emitted :=
    flat_map (image_step sv on_event round_num topic_a topic_b) urls in
  map kind emitted = repeat "image_clue" (List.length emitted)
  /\ (List.length emitted <= List.length urls)%nat
  /\ Forall (fun e => terminal e = false /\ reported_count e = None) emitted.
Proof.
  induction urls as [|u urls IH]; [cbn; auto|].
  destruct IH as (IH1 & IH2 & IH3). cbn [flat_map].
  destruct (image_step_cases sv on_event round_num topic_a topic_b u)
    as [-> | [clue ->]]; cbn [app List.length map repeat kind].
  - repeat split; auto.
  - repeat split; [now rewrite IH1 | lia | constructor; auto].
Qed.

Lemma clue_events (sv : Services) (on_event : bool) (round_num : Z)
  (topic_a topic_b : string) (round_images : list string) :
  let emitted :=
    snd (analyze_images sv on_event round_num topic_a topic_b round_images) in
  map kind emitted = repeat "image_clue" (List.length emitted)
  /\ (List.length emitted <= 2)%nat
  /\ Forall (fun e => terminal e = false /\ reported_count e = None) emitted.
Proof.
  unfold analyze_images. cbn [snd].
  destruct (image_events sv on_event round_num topic_a topic_b
              (unique_images round_images)) as (H1 & H2 & H3).
  repeat split; auto.
  etransitivity; [exact H2|]. unfold unique_images. apply firstn_le_length.
Qed.

(** The events a round adds: none of them is terminal, the entity count
    they report is the one of the graph step, and when the round runs to
    its end with a callback their kinds are those of a round. *)
Lemma round_appends (sv : Services) (on_event : bool)
  (topic_a topic_b : string) (rounds round_num : Z) (last_insight : string)
  (st : Run) :
  let extracted :=
    round_extraction sv topic_a topic_b round_num last_insight in
  exists added,
    Forall (fun e => terminal e = false) added
    /\ match store_in_graph topic_a topic_b round_num extracted (graph st) with
       | (Ok n, g') =>
           round sv on_event topic_a topic_b rounds round_num last_insight st
           = (Ok (insight extracted), mkRun g' (events st ++ added))
           /\ Forall (fun e => reported_count e = None
                               \/ reported_count e = Some n) added
           /\ (on_event = true ->
               exists clues, (clues <= 2)%nat
                             /\ map kind added = round_kinds clues)
       | (Raise e, g') =>
           round sv on_event topic_a topic_b rounds round_num last_insight st
           = (Raise e, mkRun g' (events st ++ added))
           /\ Forall (fun e => reported_count e = None) added
       end.
Proof.
  intros extracted.
  pose proof (round_run sv on_event topic_a topic_b rounds round_num
                last_insight st) as Hr.
  cbv zeta in Hr. fold extracted in Hr.
  set (ctx := Senso.query_findings (senso_env sv) (senso_post sv)
                topic_a topic_b) in *.
  set (found := search_round sv round_num topic_a topic_b last_insight ctx)
    in *.
  destruct (clue_events sv on_event round_num topic_a topic_b (snd found))
    as (Hk & Hlen & Hclues).
  set (clues := snd (analyze_images sv on_event round_num topic_a topic_b
                       (snd found))) in *.
  destruct (store_in_graph topic_a topic_b round_num extracted (graph st))
    as [[n|e] g'].
  - eexists. split; [|split; [|split]].
    2: { rewrite Hr. rewrite <- !app_assoc. reflexivity. }
    + repeat (apply Forall_app; split); try (now apply Forall_emit).
      eapply Forall_impl; [|exact Hclues]. now intros e [H _].
    + repeat (apply Forall_app; split);
        try (apply Forall_emit; cbn; auto; fail).
      eapply Forall_impl; [|exact Hclues]. intros e [_ H]. now left.
    + intros ->. exists (List.length clues). split; [exact Hlen|].
      cbn [_emit]. rewrite !map_app, Hk. reflexivity.
  - eexists. split; [|split].
    2: { rewrite Hr. rewrite <- !app_assoc. reflexivity. }
    + repeat (apply Forall_app; split); now apply Forall_emit.
    + repeat (apply Forall_app; split); now apply Forall_emit.
Qed.

Lemma run_agent_steps (GraphDatabase : option (result Driver))
  (world : Z -> Services) (topic_a topic_b : string) (rounds : Z)
  (on_event : bool) :
  run_agent GraphDatabase world topic_a topic_b rounds on_event
  = match clear (__init__ GraphDatabase) with
    | (Ok _, g) =>
        match rounds_loop world on_event topic_a topic_b rounds
                (Z.to_nat rounds) 1%Z EmptyString (mkRun g []) with
        | (Ok _, st') => summary on_event st'
        | (Raise e, st') => (Raise e, st')
        end
    | (Raise e, g) => (Raise e, mkRun g [])
    end.
Proof.
  unfold run_agent. unfold seq at 1, on_graph at 1. cbn [graph events].
  destruct (clear (__init__ GraphDatabase)) as [[u|e] g]; reflexivity.
Qed.


(** When no extraction lacks a key the rounds all run to their end. *)
Lemma rounds_loop_completes (world : Z -> Services) (on_event : bool)
  (topic_a topic_b : string) (rounds : Z) (todo : nat) :
  forall (m : nat) (st : Run),
    settled (graph st) ->
    (forall n, (m < n <= m + todo)%nat ->
       existsb lacks_required_key
         (connections (extraction_of_round world topic_a topic_b n)) = false) ->
    exists st' added,
      rounds_loop world on_event topic_a topic_b rounds todo
        (Z.of_nat (S m)) (insight_after world topic_a topic_b m) st
      = (Ok tt, st')
      /\ settled (graph st')
      /\ events st' = (events st ++ added)%list
      /\ (on_event = true ->
          exists ks, List.length ks = todo
                     /\ Forall (fun k => (k <= 2)%nat) ks
                     /\ map kind added = flat_map round_kinds ks).
Proof.
  induction todo as [|todo IH]; intros m st Hg Hgood.
  - exists st, []. cbn. rewrite app_nil_r. repeat split; auto.
    intros _. exists []. repeat split; auto.
  - cbn [rounds_loop]. unfold seq at 1.
    destruct (round_appends (world (Z.of_nat (S m))) on_event topic_a topic_b
                rounds (Z.of_nat (S m))
                (insight_after world topic_a topic_b m) st)
      as [added [Hnt Hcase]].
    cbv zeta in Hcase.
    pose proof (store_in_graph_outcome topic_a topic_b (Z.of_nat (S m))
                  (round_extraction (world (Z.of_nat (S m))) topic_a topic_b
                     (Z.of_nat (S m)) (insight_after world topic_a topic_b m))
                  (graph st) Hg) as Hs.
    change (round_extraction (world (Z.of_nat (S m))) topic_a topic_b
              (Z.of_nat (S m)) (insight_after world topic_a topic_b m))
      with (extraction_of_round world topic_a topic_b (S m)) in *.
    rewrite (Hgood (S m)) in Hs by lia.
    destruct Hs as [n [g' [E Hg']]]. rewrite E in Hcase.
    destruct Hcase as (-> & _ & Hkinds).
    replace (Z.of_nat (S m) + 1)%Z with (Z.of_nat (S (S m))) by lia.
    change (insight (extraction_of_round world topic_a topic_b (S m)))
      with (insight_after world topic_a topic_b (S m)).
    destruct (IH (S m) (mkRun g' (events st ++ added)) Hg')
      as [st' [more [El [Hs' [Hev Hks]]]]].
    { intros k Hk. apply Hgood. lia. }
    exists st', (added ++ more)%list. rewrite El.
    repeat split; auto.
    + rewrite Hev. cbn [events]. now rewrite app_assoc.
    + intros Hon. destruct (Hkinds Hon) as [c [Hc Hk1]].
      destruct (Hks Hon) as [ks [Hl [Hf Hk2]]].
      exists (c :: ks). cbn [List.length flat_map].
      rewrite map_app, Hk1, Hk2, Hl. repeat split; auto.
Qed.

Lemma settled_summary (on_event : bool) (st : Run) :
  settled (graph st) ->
  exists total conns st',
    summary on_event st = (Ok tt, st')
    /\ fst (get_entity_count (graph st)) = Ok total
    /\ fst (get_connections (graph st)) = Ok conns
    /\ events st'
       = (events st
          ++ _emit on_event
               (complete total (List.length conns)
                  (top_connections_of conns)))%list.
Proof.
  destruct st as [g evs]. cbn [graph]. intros [-> | [db ->]].
  - exists 0%Z, []. eexists. cbn. repeat split; reflexivity.
  - exists (Z.of_nat (List.length (nodes db))), (match_connections db).
    eexists. cbn. repeat split; reflexivity.
Qed.

Lemma run_agent_aborts (GraphDatabase : option (result Driver))
  (world : Z -> Services) (topic_a topic_b : string) (rounds : Z)
  (on_event : bool) (n : nat) :
  (1 <= n <= Z.to_nat rounds)%nat ->
  existsb lacks_required_key
    (connections (extraction_of_round world topic_a topic_b n)) = true ->
  exists k st',
    run_agent GraphDatabase world topic_a topic_b rounds on_event
    = (Raise (KeyError k), st')
    /\ In k ["from"; "to"; "relationship"].
Proof.
  intros Hn Hbad. rewrite run_agent_steps.
  destruct (settled_clear _ (settled_init GraphDatabase)) as [g [E Hg]].
  rewrite E.
  destruct (rounds_loop_aborts world on_event topic_a topic_b rounds
              (Z.to_nat rounds) 0 n (mkRun g []) Hg) as
    [k [st' [n' [pre [El [Hin _]]]]]]; [lia | exact Hbad |].
  cbn [insight_after] in El. change (Z.of_nat 1) with 1%Z in El.
  rewrite El. now exists k, st'.
Qed.

Lemma run_agent_completes (GraphDatabase : option (result Driver))
  (world : Z -> Services) (topic_a topic_b : string) (rounds : Z)
  (on_event : bool) :
  (forall n, (1 <= n <= Z.to_nat rounds)%nat ->
     existsb lacks_required_key
       (connections (extraction_of_round world topic_a topic_b n)) = false) ->
  exists st total conns added,
    run_agent GraphDatabase world topic_a topic_b rounds on_event
    = (Ok tt, st)
    /\ events st
       = (added ++ _emit on_event
                     (complete total (List.length conns)
                        (top_connections_of conns)))%list
    /\ (on_event = true ->
        exists ks, List.length ks = Z.to_nat rounds
                   /\ Forall (fun k => (k <= 2)%nat) ks
                   /\ map kind added = flat_map round_kinds ks).
Proof.
  intros Hgood. rewrite run_agent_steps.
  destruct (settled_clear _ (settled_init GraphDatabase)) as [g [E Hg]].
  rewrite E.
  destruct (rounds_loop_completes world on_event topic_a topic_b rounds
              (Z.to_nat rounds) 0 (mkRun g []) Hg)
    as [st' [added [El [Hs' [Hev Hks]]]]].
  { intros n Hn. apply Hgood. lia. }
  cbn [insight_after] in El. change (Z.of_nat 1) with 1%Z in El.
  rewrite El.
  destruct (settled_summary on_event st' Hs')
    as [total [conns [st'' [Es [_ [_ Hev']]]]]].
  exists st'', total, conns, added. rewrite Es.
  repeat split; auto. rewrite Hev', Hev. reflexivity.
Qed.


Lemma all_rounds_keyed (world : Z -> Services) (topic_a topic_b : string)
  (rounds : nat) :
  (forall n, (1 <= n <= rounds)%nat ->
     existsb lacks_required_key
       (connections (extraction_of_round world topic_a topic_b n)) = false)
  \/ (exists n, (1 <= n <= rounds)%nat
                /\ existsb lacks_required_key
                     (connections (extraction_of_round world topic_a topic_b n))
                   = true).
Proof.
  induction rounds as [|r IH].
  - left. intros n Hn. lia.
  - destruct IH as [Hall | [n [Hn Hbad]]].
    + destruct (existsb lacks_required_key
                  (connections (extraction_of_round world topic_a topic_b (S r))))
        eqn:E.
      * right. exists (S r). split; [lia | exact E].
      * left. intros n Hn. destruct (Nat.eq_dec n (S r)) as [->|Hne];
          [exact E | apply Hall; lia].
    + right. exists n. split; [lia | exact Hbad].
Qed.

(** X15.  A run that returns normally with a callback emits, for each
    round in turn, [round_start], [senso_query], [search_complete],
    [extraction_complete], [graph_update], at most two [image_clue] and one
    [narration], and then one final [complete]: nothing else, and as many
    rounds as were asked for. *)
Theorem run_event_kinds (GraphDatabase : option (result Driver))
  (world : Z -> Services) (topic_a topic_b : string) (rounds : Z) :
  fst (run_agent GraphDatabase world topic_a topic_b rounds true) = Ok tt ->
  exists clues,
    List.length clues = Z.to_nat rounds
    /\ Forall (fun k => (k <= 2)%nat) clues
    /\ map kind
         (events (snd (run_agent GraphDatabase world topic_a topic_b rounds
                         true)))
       = (flat_map round_kinds clues ++ ["complete"])%list.
Proof.
  intros Hok.
  destruct (all_rounds_keyed world topic_a topic_b (Z.to_nat rounds))
    as [Hgood | [n [Hn Hbad]]].
  - destruct (run_agent_completes GraphDatabase world topic_a topic_b rounds
                true Hgood) as [st [total [conns [added [E [Hev Hks]]]]]].
    destruct (Hks eq_refl) as [ks [Hl [Hf Hk]]].
    exists ks. rewrite E. cbn [snd]. rewrite Hev, map_app, Hk.
    repeat split; auto.
  - destruct (run_agent_aborts GraphDatabase world topic_a topic_b rounds
                true n Hn Hbad) as [k [st' [E _]]].
    rewrite E in Hok. discriminate.
Qed.

(** X16.  The completion summary lists as many top connections as there
    are connections, up to five. *)
Theorem top_connections_count (conns : list Connection) :
  List.length (top_connections_of conns) = Nat.min 5 (List.length conns).
Proof.
  unfold top_connections_of. rewrite length_map, length_firstn.
  f_equal. apply Permutation_length, sorted_by_suspicion_perm.
Qed.

(** *** A run without a graph *)

Lemma for_each_idle {A} (body : A -> method unit) (l : list A) :
  (forall x, body x idle = (Ok tt, idle)) ->
  for_each body l idle = (Ok tt, idle).
Proof.
  intros Hb. induction l as [|x l IH]; [reflexivity|].
  cbn [for_each]. unfold then_. now rewrite Hb.
Qed.

Lemma store_connections_idle (conns : list ConnDict) :
  exists r, for_each store_connection conns idle = (r, idle).
Proof.
  induction conns as [|conn conns [r IH]]; [now exists (Ok tt)|].
  cbn [for_each]. unfold then_, store_connection at 1.
  destruct (connection_args conn) as [[[[f t] rel] s]|e].
  - cbn. rewrite IH. now exists r.
  - now exists (Raise e).
Qed.

Lemma store_in_graph_idle (topic_a topic_b : string) (round_num : Z)
  (extracted : Extraction) :
  exists r,
    store_in_graph topic_a topic_b round_num extracted idle = (r, idle)
    /\ (forall n, r = Ok n -> n = 0%Z).
Proof.
  unfold store_in_graph, then_.
  rewrite !for_each_idle by reflexivity.
  destruct (store_connections_idle (connections extracted)) as [[u|e] ->].
  - exists (Ok 0%Z). split; [reflexivity|]. intros n H. now inversion H.
  - exists (Raise e). split; [reflexivity|]. intros n H. discriminate.
Qed.

Lemma rounds_loop_idle (world : Z -> Services) (on_event : bool)
  (topic_a topic_b : string) (rounds : Z) (todo : nat) :
  forall (round_num : Z) (last_insight : string) (st : Run),
    graph st = idle ->
    let out := rounds_loop world on_event topic_a topic_b rounds todo
                 round_num last_insight st in
    graph (snd out) = idle
    /\ exists added, events (snd out) = (events st ++ added)%list
                     /\ Forall counts_nothing added.
Proof.
  induction todo as [|todo IH]; intros round_num last_insight st Hg;
    cbv zeta in *.
  - cbn. split; [exact Hg|]. exists []. now rewrite app_nil_r.
  - cbn [rounds_loop]. unfold seq.
    destruct (round_appends (world round_num) on_event topic_a topic_b rounds
                round_num last_insight st) as [added [_ Hcase]].
    cbv zeta in Hcase. rewrite Hg in Hcase.
    destruct (store_in_graph_idle topic_a topic_b round_num
                (round_extraction (world round_num) topic_a topic_b round_num
                   last_insight)) as [r [E Hzero]].
    rewrite E in Hcase. destruct r as [n|e].
    + destruct Hcase as (-> & Hcount & _). rewrite (Hzero n eq_refl) in Hcount.
      destruct (IH (round_num + 1)%Z
                  (insight (round_extraction (world round_num) topic_a topic_b
                              round_num last_insight))
                  (mkRun idle (events st ++ added)) eq_refl)
        as [Hidle [more [Ev Hmore]]].
      split; [exact Hidle|]. exists (added ++ more)%list.
      rewrite Ev. cbn [events]. split; [now rewrite app_assoc|].
      apply Forall_app. split; [|exact Hmore].
      eapply Forall_impl; [|exact Hcount].
      intros e [H | H]; destruct e; cbn in *; auto; congruence.
    + destruct Hcase as (-> & Hcount). cbn [snd graph events].
      split; [reflexivity|]. exists added. split; [reflexivity|].
      eapply Forall_impl; [|exact Hcount].
      intros e' H; destruct e'; cbn in *; auto; congruence.
Qed.

(** X17.  When the store reports unavailable after its construction, the
    agent still runs: every [graph_update] it emits reports 0 entities,
    and a run that returns normally ends with a [complete] event of 0
    entities, 0 connections and no top connection. *)
Theorem run_without_graph (GraphDatabase : option (result Driver))
  (world : Z -> Services) (topic_a topic_b : string) (rounds : Z)
  (on_event : bool) :
  available (__init__ GraphDatabase) = false ->
  let out := run_agent GraphDatabase world topic_a topic_b rounds on_event in
  Forall counts_nothing (events (snd out))
  /\ (fst out = Ok tt ->
      exists body,
        events (snd out)
        = (body ++ _emit on_event (complete 0%Z 0 []))%list).
Proof.
  intros Hav out. subst out. rewrite run_agent_steps.
  assert (Hi : __init__ GraphDatabase = idle).
  { destruct GraphDatabase as [[[db [|]]|e]|]; cbn in *;
      try reflexivity; discriminate. }
  rewrite Hi. cbn [clear idle available negb].
  destruct (rounds_loop_idle world on_event topic_a topic_b rounds
              (Z.to_nat rounds) 1%Z EmptyString (mkRun idle []) eq_refl)
    as [Hg [added [Ev Hc]]].
  fold idle.
  destruct (rounds_loop world on_event topic_a topic_b rounds
              (Z.to_nat rounds) 1%Z EmptyString (mkRun idle []))
    as [[u|e] [g evs]]; cbn [snd graph events] in *; subst g evs.
  - cbn. split.
    + apply Forall_app. split; [exact Hc|]. apply Forall_emit. exact I.
    + intros _. now exists added.
  - cbn. split; [exact Hc | discriminate].
Qed.

Lemma run_without_graph_witness :
  let out := run_agent None Samples.keyed_world "Moon Landing" "Bigfoot" 1%Z
               true in
  Forall counts_nothing (events (snd out))
  /\ (fst out = Ok tt ->
      exists body,
        events (snd out) = (body ++ _emit true (complete 0%Z 0 []))%list).
Proof.
  apply (run_without_graph None Samples.keyed_world "Moon Landing" "Bigfoot"
           1%Z true).
  reflexivity.
Defined.

(** *** The log kept by the server *)





Lemma run_event_kinds_witness :
  exists clues,
    List.length clues = 2%nat
    /\ Forall (fun k => (k <= 2)%nat) clues
    /\ map kind
         (events (snd (run_agent (Some (Ok (mkDriver (mkDb [] []) true)))
                         Samples.keyed_world "Moon Landing" "Bigfoot" 2%Z
                         true)))
       = (flat_map round_kinds clues ++ ["complete"])%list.
Proof.
  apply (run_event_kinds (Some (Ok (mkDriver (mkDb [] []) true)))
           Samples.keyed_world "Moon Landing" "Bigfoot" 2%Z).
  vm_compute. reflexivity.
Defined.

(** The events of the two rounds on the sample services: one image clue
    in each round, and two entities (NASA and Area 51) at the end. *)
Example keyed_run_events :
  let out := run_agent (Some (Ok (mkDriver (mkDb [] []) true)))
               Samples.keyed_world "Moon Landing" "Bigfoot" 2%Z true in
  map kind (events (snd out))
  = (round_kinds 1 ++ round_kinds 1 ++ ["complete"])%list
  /\ last (events (snd out)) (round_start 0 0)
     = complete 2%Z 1 [mkTop "NASA" "Area 51" "hides"].
Proof. vm_compute. split; reflexivity. Qed.

End RunProtocol.

(** ** The store after the sample history *)

Section HistoryRuns.

Import Graph History Samples.





Lemma add_entity_keeps_connections_witness :
  let self :=
    mkGraph true
      (Some (mkDriver (mkDb [mkNode "NASA" None None;
                             mkNode "Area 51" None None]
                        [mkRel 0 1 "hides" 9%Z]) true)) in
  fst (get_connections (snd (add_entity "Bigfoot" "Bigfoot" 1%Z self)))
  = fst (get_connections self).
Proof.
  intros self.
  apply (add_entity_keeps_connections "Bigfoot" "Bigfoot" 1%Z self
           (mkDb [mkNode "NASA" None None; mkNode "Area 51" None None]
              [mkRel 0 1 "hides" 9%Z])).
  - split; reflexivity.
  - repeat constructor.
Defined.

End HistoryRuns.

(** ** What the events say about the prior context *)

Section ContextReports.

Import Graph Extractor Agent Protocol.

Variable world : Z -> Services.
Variables topic_a topic_b : string.
Variable P : bool -> nat -> Prop.

(** [P] holds of what each round would report. *)
Hypothesis reports :
  forall round_num,
    let ctx := Senso.query_findings (senso_env (world round_num))
                 (senso_post (world round_num)) topic_a topic_b in
    P (truthy ctx) (if truthy ctx then String.length ctx else 0%nat).

Lemma image_events_context (sv : Services) (on_event : bool) (round_num : Z)
  (urls : list string) :
  Forall (context_report P)
    (flat_map (image_step sv on_event round_num topic_a topic_b) urls).
Proof.
  induction urls as [|u urls IH]; [constructor|].
  cbn [flat_map].
  destruct (image_step_cases sv on_event round_num topic_a topic_b u)
    as [-> | [clue ->]]; [exact IH|].
  constructor; [exact I | exact IH].
Qed.

Lemma round_context (on_event : bool) (rounds round_num : Z)
  (last_insight : string) (st : Run) :
  Forall (context_report P) (events st) ->
  Forall (context_report P)
    (events (snd (round (world round_num) on_event topic_a topic_b rounds
                    round_num last_insight st))).
Proof.
  intros Hst.
  rewrite (round_run (world round_num) on_event topic_a topic_b rounds
             round_num last_insight st).
  pose proof (reports round_num) as Hp. cbv zeta in Hp.
  destruct (store_in_graph topic_a topic_b round_num _ (graph st))
    as [[n|e] g']; cbn [snd events];
    repeat (apply Forall_app; split);
    try exact Hst; try (apply Forall_emit; exact I);
    try (apply Forall_emit; exact Hp).
  unfold analyze_images. cbn [snd]. apply image_events_context.
Qed.

Lemma rounds_loop_context (on_event : bool) (rounds : Z) (todo : nat) :
  forall (round_num : Z) (last_insight : string) (st : Run),
    Forall (context_report P) (events st) ->
    Forall (context_report P)
      (events (snd (rounds_loop world on_event topic_a topic_b rounds todo
                      round_num last_insight st))).
Proof.
  induction todo as [|todo IH]; intros round_num last_insight st Hst;
    [exact Hst|].
  cbn [rounds_loop]. unfold seq at 1.
  pose proof (round_context on_event rounds round_num last_insight st Hst)
    as Hr.
  destruct (round (world round_num) on_event topic_a topic_b rounds round_num
              last_insight st) as [[ins|e] st']; cbn [snd] in *.
  - now apply IH.
  - exact Hr.
Qed.

Lemma run_agent_context (GraphDatabase : option (result Driver))
  (rounds : Z) (on_event : bool) :
  Forall (context_report P)
    (events (snd (run_agent GraphDatabase world topic_a topic_b rounds
                    on_event))).
Proof.
  rewrite run_agent_steps.
  destruct (clear (__init__ GraphDatabase)) as [[u|e] g];
    [|constructor].
  pose proof (rounds_loop_context on_event rounds (Z.to_nat rounds) 1%Z
                EmptyString (mkRun g []) (Forall_nil _)) as Hl.
  destruct (rounds_loop world on_event topic_a topic_b rounds
              (Z.to_nat rounds) 1%Z EmptyString (mkRun g []))
    as [[u'|e] st']; cbn [snd] in *; [|exact Hl].
  pose proof (summary_event on_event st') as Hs.
  destruct (summary on_event st') as [[u''|e] st'']; cbn [snd].
  - destruct Hs as [total [conns [_ [_ ->]]]].
    apply Forall_app. split; [exact Hl|]. apply Forall_emit. exact I.
  - now rewrite Hs.
Qed.

End ContextReports.

Section ContextFacts.

Import Graph Agent Protocol.

(** X19.  Every [senso_query] event of a run reports a context length of
    at most 500 and says that there is a context exactly when that length
    is not 0; when no round has a knowledge-store key, every such event
    reports no context and the length 0. *)
Theorem context_reports_are_consistent
  (GraphDatabase : option (result Driver)) (world : Z -> Services)
  (topic_a topic_b : string) (rounds : Z) (on_event : bool) :
  let emitted :=
    events (snd (run_agent GraphDatabase world topic_a topic_b rounds
                   on_event)) in
  Forall (context_report
            (fun has_context context_length =>
               (context_length <= 500)%nat
               /\ has_context = negb (context_length =? 0)%nat)) emitted
  /\ ((forall round_num,
         Senso._get_api_key (senso_env (world round_num)) = None) ->
      Forall (context_report
                (fun has_context context_length =>
                   has_context = false /\ context_length = 0%nat)) emitted).
Proof.
  intros emitted. subst emitted. split.
  - apply run_agent_context. intros round_num ctx.
    pose proof (query_findings_short (senso_env (world round_num))
                  (senso_post (world round_num)) topic_a topic_b) as Hlen.
    fold ctx in Hlen. destruct ctx as [|c ctx]; cbn in *; auto.
  - intros Hkey. apply run_agent_context. intros round_num ctx. subst ctx.
    unfold Senso.query_findings. rewrite Hkey. cbn. auto.
Qed.

Lemma context_reports_are_consistent_witness :
  Forall (context_report
            (fun has_context context_length =>
               has_context = false /\ context_length = 0%nat))
    (events (snd (run_agent None Samples.keyed_world "Moon Landing" "Bigfoot"
                    2%Z true))).
Proof.
  apply (context_reports_are_consistent None Samples.keyed_world
           "Moon Landing" "Bigfoot" 2%Z true).
  intros round_num. reflexivity.
Defined.

End ContextFacts.
